(** * generate_audio.py: narration clips and their duration record

    A shallow embedding of [src/generate_audio.py].  The script walks a
    table of (filename, text) pairs, asks the Kokoro pipeline for the audio
    chunks of each text, writes the concatenated chunks as a WAV file with
    [soundfile], derives the clip duration from the size of the file on
    disk, and finally dumps the filename -> milliseconds dictionary as
    [durations.json].

    The embedding keeps the effects of the script explicit: a filesystem
    (paths to file contents), a log of the completed effects (files
    written, paths stat-ed, lines printed) and Python exceptions. *)

From Stdlib Require Import ZArith String Ascii List Bool Lia SpecFloat.
From Stdlib Require Strings.Byte.
From stdpp Require Import base option list gmap strings pretty.

Local Open Scope string_scope.
Local Open Scope list_scope.
Local Open Scope Z_scope.

(** ** Python values used by the script *)

(** Exceptions that can leave [main]. *)
Inductive exn : Type :=
  | ZeroDivisionError
  | OverflowError
  | ValueError
  | FileNotFoundError (path : string)
  | OSError (path : string)
  | LibsndfileError (path : string)
  | SynthesisError (message : string).

(** The result of evaluating a Python expression or statement. *)
Inductive outcome (A : Type) : Type :=
  | Return (a : A)
  | Raise (e : exn).
Arguments Return {A} a.
Arguments Raise {A} e.

(** *** Floats

    A Python float is an IEEE 754 binary64 number.  [spec_float] with 53
    bits of precision and exponents below 1024 is the bit-exact model the
    Standard Library gives for it. *)
Module Float.

Definition prec : Z := 53.
Definition emax : Z := 1024.

Abbreviation float := spec_float.

Definition zero : float := S754_zero false.
Definition of_int (z : Z) : float := binary_normalize prec emax z 0 false.
Definition add : float -> float -> float := SFadd prec emax.
Definition mul : float -> float -> float := SFmul prec emax.

(** [a / b] on two Python ints: the quotient of the exact integers,
    rounded once to the nearest float. *)
Definition int_truediv (a b : Z) : outcome float :=
  match b with
  | Z0 => Raise ZeroDivisionError
  | _ =>
    match a with
    | Z0 => Return (S754_zero (b <? 0))
    | _ =>
      match SFdiv prec emax
              (S754_finite (a <? 0) (Z.to_pos (Z.abs a)) 0)
              (S754_finite (b <? 0) (Z.to_pos (Z.abs b)) 0) with
      | S754_finite s m e => Return (S754_finite s m e)
      | S754_zero s => Return (S754_zero s)
      | _ => Raise OverflowError
      end
    end
  end.

(** The integer nearest to [m * 2^e] for [m >= 0], ties going to the
    even neighbour. *)
Definition nearest_even (m e : Z) : Z :=
  if 0 <=? e then m * 2 ^ e
  else
    let d := 2 ^ (- e) in
    let q := m / d in
    let r := m mod d in
    if 2 * r <? d then q
    else if d <? 2 * r then q + 1
    else if Z.even q then q else q + 1.

(** [round(x)] with one argument: an int, half to even. *)
Definition round (x : float) : outcome Z :=
  match x with
  | S754_zero _ => Return 0
  | S754_infinity _ => Raise OverflowError
  | S754_nan => Raise ValueError
  | S754_finite s m e =>
    let n := nearest_even (Zpos m) e in
    Return (if s then - n else n)
  end.

(** [f"{x:.1f}"]: one digit after the point, correctly rounded. *)
Definition format_1f (x : float) : string :=
  let sign (s : bool) := if s then "-" else EmptyString in
  match x with
  | S754_nan => "nan"
  | S754_infinity s => sign s +:+ "inf"
  | S754_zero s => sign s +:+ "0.0"
  | S754_finite s m e =>
    let n := nearest_even (10 * Zpos m) e in
    sign s +:+ pretty (n / 10) +:+ "." +:+ pretty (n mod 10)
  end.

End Float.

Abbreviation float := Float.float.

(** *** The [durations] dict

    A Python dict keeps its keys in insertion order; assigning to a key
    that is already present replaces the value where the key stands. *)
Abbreviation dict := (list (string * Z)).

Fixpoint dict_set (k : string) (v : Z) (d : dict) : dict :=
  match d with
  | [] => [(k, v)]
  | (k', v') :: d' =>
    if decide (k' = k) then (k, v) :: d' else (k', v') :: dict_set k v d'
  end.

Definition dict_keys (d : dict) : list string := map fst d.

Fixpoint dict_get (k : string) (d : dict) : option Z :=
  match d with
  | [] => None
  | (k', v) :: d' => if decide (k' = k) then Some v else dict_get k d'
  end.

(** ** What [soundfile.write] puts on disk

    [sf.write(path, data, 24000)] on a [.wav] path stores 16-bit PCM: the
    canonical 44-byte RIFF/WAVE header followed by two little-endian bytes
    per sample.  A sample is the 16-bit value that is stored. *)
Module Wav.

Abbreviation sample := Z.

Definition u8 (z : Z) : Byte.byte :=
  default Byte.x00 (Byte.of_N (Z.to_N (Z.land z 255))).

Definition le16 (z : Z) : list Byte.byte :=
  [u8 z; u8 (Z.shiftr z 8)].

Definition le32 (z : Z) : list Byte.byte :=
  [u8 z; u8 (Z.shiftr z 8); u8 (Z.shiftr z 16); u8 (Z.shiftr z 24)].

Definition tag (s : string) : list Byte.byte := list_byte_of_string s.

Definition channels : Z := 1.
Definition bytes_per_sample : Z := 2.

Definition payload (audio : list sample) : list Byte.byte :=
  flat_map le16 audio.

Definition header (samplerate : Z) (audio : list sample) : list Byte.byte :=
  let datalen := bytes_per_sample * Z.of_nat (length audio) in
  tag "RIFF" ++ le32 (36 + datalen) ++ tag "WAVE"
  ++ tag "fmt " ++ le32 16 ++ le16 1 ++ le16 channels
  ++ le32 samplerate ++ le32 (samplerate * channels * bytes_per_sample)
  ++ le16 (channels * bytes_per_sample) ++ le16 (8 * bytes_per_sample)
  ++ tag "data" ++ le32 datalen.

Definition encode (samplerate : Z) (audio : list sample) : list Byte.byte :=
  header samplerate audio ++ payload audio.

Definition header_size : nat := 44.

End Wav.

(** ** Effects *)

Abbreviation filesystem := (gmap string (list Byte.byte)).

(** Lines the script prints.  The constructors keep the values that the
    f-strings interpolate. *)
Inductive line : Type :=
  | Generating (filename text : string)
      (* f"  Generating {filename}: {text!r}" *)
  | ClipDone (out_path : string) (seconds : string)
      (* f"    -> {out_path.name} ({dur:.1f}s)" *)
  | DurationsSaved (dur_path : string)
      (* f"\nDurations saved: {dur_path}" *)
  | TotalNarration (seconds : string)
      (* f"Total narration: {total_dur:.1f}s" *)
  | AudioGenerationComplete.
      (* "Audio generation complete." *)

(** Effects that completed, in the order they happened. *)
Inductive event : Type :=
  | Mkdir (path : string)
  | Print (l : line)
  | SfWrite (path : string) (audio : list Wav.sample) (samplerate : Z)
  | Stat (path : string) (st_size : Z)
  | JsonDump (path : string) (obj : dict).

(** A statement runs on a filesystem and ends normally or with an
    exception; either way it leaves a filesystem and the events that
    completed before it ended. *)
Definition M (A : Type) : Type :=
  filesystem -> outcome A * filesystem * list event.

Definition ret {A} (a : A) : M A := fun fs => (Return a, fs, []).

Definition bind {A B} (m : M A) (k : A -> M B) : M B :=
  fun fs =>
    match m fs with
    | (Return a, fs1, ev1) =>
      let '(r, fs2, ev2) := k a fs1 in (r, fs2, ev1 ++ ev2)
    | (Raise e, fs1, ev1) => (Raise e, fs1, ev1)
    end.

Definition lift {A} (o : outcome A) : M A := fun fs => (o, fs, []).

(** [M] is a monad in the sense of stdpp, whose notations
    [x ← m; k] and [m;; k] sequence the statements below. *)
#[export] Instance M_ret : MRet M := @ret.
#[export] Instance M_bind : MBind M := fun A B k m => bind m k.

Definition print (l : line) : M unit :=
  fun fs => (Return tt, fs, [Print l]).

(** [for x in xs: acc = body(acc, x)], stopping at the first exception. *)
Fixpoint for_each {A S} (body : S -> A -> M S) (xs : list A) (acc : S) : M S :=
  match xs with
  | [] => ret acc
  | x :: xs' => acc' ← body acc x; for_each body xs' acc'
  end.

(** ** The script *)

Definition VOICE : string := "am_puck".

(** One result of the Kokoro pipeline: graphemes, phonemes and the audio
    chunk. *)
Abbreviation result := (string * string * list Wav.sample)%type.

(** A pipeline object, called as [pipeline(text, voice=..., speed=...)].
    The loop of the script consumes the whole generator before it does
    anything else, so the generator is modelled by the list of everything
    it yields, or by the exception that ends it. *)
Abbreviation pipeline_t := (string -> string -> float -> outcome (list result)).

(** The third component of [for _gs, _ps, audio in pipeline(...)]. *)
Definition audio_of (r : result) : list Wav.sample :=
  let '(_gs, _ps, audio) := r in audio.

Definition NARRATIONS : list (string * string) :=
  [ ("01.wav",
     "Let's take a quick look at Nebee, a multi-user environment management platform built for pixie.");
    ("02.wav",
     "Once you log in, you land on the workspaces dashboard. This is where you can see all your environments at a glance, create new ones, or jump into an existing workspace.");
    ("03.wav",
     "Clicking into a workspace gives you the full picture. You can see which packages are installed, the platforms it supports, and the current configuration.");
    ("04.wav",
     "Adding a new package is simple. Just open the install dialog, type the package name, and hit install. Nebee handles the rest in the background.");
    ("05.wav",
     "You can also edit the pixie dot toml configuration directly in the browser. Great for quick tweaks without opening a terminal.");
    ("06.wav",
     "Every change is automatically versioned. Each version stores the full pixie dot toml and lock file, so you can always roll back to any previous state.");
    ("07.wav",
     "When you're ready, just hit publish. Nebee pushes your environment to an O.C.I. registry so your team can pull it from anywhere.");
    ("08.wav",
     "Sharing a workspace is easy. Just click share, pick a team member, set their permission level, and they're in.");
    ("09.wav",
     "All the heavy lifting happens through background jobs. You get full real-time logs for every operation, so you always know exactly what's going on.");
    ("10.wav",
     "The registries page gives you a clear view of all connected O.C.I. registries and everything that's been published to them.");
    ("11.wav",
     "You can also browse existing registries, explore what's available, and import any environment with just a few clicks.");
    ("12.wav",
     "Over in the admin panel, you get a bird's-eye view of the entire platform.");
    ("13.wav",
     "User management is built right in. You can create accounts, assign roles, and control exactly who has access to what.");
    ("14.wav",
     "Managing registries is straightforward too. Add multiple O.C.I. registries and configure credentials, all from one place.");
    ("15.wav",
     "And finally, everything is tracked in the audit log. Every action, every change, fully accounted for.");
    ("16.wav",
     "That's Nebee. Give it a try, and let us know what you think!") ].

(** ** Reading a run

    What the statements of the claims look at in the events of a run. *)

(** The files [sf.write] wrote. *)
Fixpoint writes (ev : list event) : list (string * list Wav.sample * Z) :=
  match ev with
  | [] => []
  | SfWrite path audio samplerate :: ev' => (path, audio, samplerate) :: writes ev'
  | _ :: ev' => writes ev'
  end.

(** The paths stat-ed with the sizes found. *)
Fixpoint stats (ev : list event) : list (string * Z) :=
  match ev with
  | [] => []
  | Stat path st_size :: ev' => (path, st_size) :: stats ev'
  | _ :: ev' => stats ev'
  end.

(** The dictionaries dumped as JSON. *)
Fixpoint dumps (ev : list event) : list (string * dict) :=
  match ev with
  | [] => []
  | JsonDump path obj :: ev' => (path, obj) :: dumps ev'
  | _ :: ev' => dumps ev'
  end.

(** The entries whose progress line was printed. *)
Fixpoint started (ev : list event) : list (string * string) :=
  match ev with
  | [] => []
  | Print (Generating filename text) :: ev' => (filename, text) :: started ev'
  | _ :: ev' => started ev'
  end.

(** The chunks the pipeline yields for a text. *)
Definition chunks_of (pipeline : pipeline_t) (text : string)
    : outcome (list (list Wav.sample)) :=
  match pipeline text VOICE (Float.of_int 1) with
  | Return results => Return (map audio_of results)
  | Raise e => Raise e
  end.

(** [round(fileSizeBytes / 48000 * 1000)], as Python evaluates it. *)
Definition round_ms (fileSizeBytes : Z) : outcome Z :=
  match Float.int_truediv fileSizeBytes 48000 with
  | Return seconds => Float.round (Float.mul seconds (Float.of_int 1000))
  | Raise e => Raise e
  end.

(** [fileSizeBytes / 48000], as Python evaluates it. *)
Definition seconds_of (fileSizeBytes : Z) : outcome float :=
  Float.int_truediv fileSizeBytes 48000.

(** A float whose sign bit is clear: +0.0, a positive number or
    +infinity.  NaN has no sign to speak of and is let through. *)
Definition sign_clear (x : float) : Prop :=
  match x with
  | S754_nan => True
  | S754_zero s | S754_infinity s | S754_finite s _ _ => s = false
  end.

(** The elements of a list in the order of their first occurrence. *)
Fixpoint first_occurrences (l : list string) : list string :=
  match l with
  | [] => []
  | x :: l' => x :: filter (fun y => y ≠ x) (first_occurrences l')
  end.

(** ** A concrete world

    Instances of the surroundings of the script, used to run it: a
    directory path joined with a plain file name, an operating system that
    never refuses, a stub pipeline that yields given chunks, and the
    [indent=2] layout of [json.dumps] for keys that need no escaping. *)
Module World.

Definition joinpath (dir name : string) : string := dir +:+ "/" +:+ name.

Definition io_ok (path : string) : bool := true.

(** A pipeline whose generator yields the chunks [chunks_for text]. *)
Definition stub_pipeline (chunks_for : string -> list (list Wav.sample))
    : pipeline_t :=
  fun text _voice _speed =>
    Return (map (fun audio => (EmptyString, EmptyString, audio)) (chunks_for text)).

Definition stub (chunks_for : string -> list (list Wav.sample))
    : string -> outcome pipeline_t :=
  fun _lang_code => Return (stub_pipeline chunks_for).

Definition quote : string := String (ascii_of_nat 34) EmptyString.
Definition newline : string := String (ascii_of_nat 10) EmptyString.

Definition json_item (kv : string * Z) : string :=
  "  " +:+ quote +:+ kv.1 +:+ quote +:+ ": " +:+ pretty kv.2.

Fixpoint json_items (d : dict) : string :=
  match d with
  | [] => EmptyString
  | [kv] => json_item kv
  | kv :: d' => json_item kv +:+ "," +:+ newline +:+ json_items d'
  end.

Definition json_dumps (d : dict) : string :=
  match d with
  | [] => "{}"
  | _ => "{" +:+ newline +:+ json_items d +:+ newline +:+ "}"
  end.

Definition OUTPUT_DIR : string := "output/audio".

(** One second of silence at 24000 Hz. *)
Definition one_second : list Wav.sample := repeat 0 (Z.to_nat 24000).

Definition one_second_chunks (text : string) : list (list Wav.sample) :=
  [one_second].

(** A clip of 1168 samples: 2380 bytes on disk, a little under 0.05 s. *)
Definition short_chunks (text : string) : list (list Wav.sample) :=
  [repeat 0 (Z.to_nat 1168)].

(** A two-entry table and a synthesizer that yields two chunks for the
    first text and one for the second. *)
Definition two_clips : list (string * string) :=
  [("a.wav", "Hi"); ("b.wav", "there")].

Definition two_clips_chunks (text : string) : list (list Wav.sample) :=
  if decide (text = "Hi") then [[1; -2]; [3]] else [[4; 5; 6]].

(** A synthesizer that yields nothing. *)
Definition no_chunks (text : string) : list (list Wav.sample) := [].

(** A synthesizer that yields nothing for the text "there". *)
Definition skips_there (text : string) : list (list Wav.sample) :=
  if decide (text = "there") then [] else [[1; -2]; [3]].

(** A table with the same file name twice. *)
Definition same_name : list (string * string) :=
  [("a.wav", "Hi"); ("a.wav", "there")].

(** A clip left in the output directory by an earlier run. *)
Definition stale : list Byte.byte := Wav.encode 24000 [7; 7; 7; 7].

End World.

Section Script.

(** The world around the script.  [OUTPUT_DIR] is
    [Path(__file__).parent / "output" / "audio"]; [joinpath] is the [/]
    of [pathlib]; [io_ok path] tells whether the operating system lets
    the process create the directory or open the file at [path] for
    writing; [KPipeline] is the constructor of the Kokoro pipeline;
    [json_dumps] is the text [json.dump(obj, f, indent=2)] writes. *)
Variable OUTPUT_DIR : string.
Variable joinpath : string -> string -> string.
Variable io_ok : string -> bool.
Variable KPipeline : string -> outcome pipeline_t.
Variable json_dumps : dict -> string.

(** [OUTPUT_DIR.mkdir(parents=True, exist_ok=True)] *)
Definition mkdir (path : string) : M unit :=
  fun fs =>
    if io_ok path then (Return tt, fs, [Mkdir path])
    else (Raise (OSError path), fs, []).

(** [sf.write(str(path), audio, samplerate)] *)
Definition sf_write (path : string) (audio : list Wav.sample)
    (samplerate : Z) : M unit :=
  fun fs =>
    if io_ok path
    then (Return tt, <[path := Wav.encode samplerate audio]> fs,
          [SfWrite path audio samplerate])
    else (Raise (LibsndfileError path), fs, []).

(** [path.stat().st_size] *)
Definition stat_st_size (path : string) : M Z :=
  fun fs =>
    match fs !! path with
    | Some content =>
      let st_size := Z.of_nat (length content) in
      (Return st_size, fs, [Stat path st_size])
    | None => (Raise (FileNotFoundError path), fs, [])
    end.

(** [with open(path, "w") as f: json.dump(obj, f, indent=2)] *)
Definition json_dump (path : string) (obj : dict) : M unit :=
  fun fs =>
    if io_ok path
    then (Return tt, <[path := list_byte_of_string (json_dumps obj)]> fs,
          [JsonDump path obj])
    else (Raise (OSError path), fs, []).

(** The audio of every result that
    [pipeline(text, voice=VOICE, speed=1.0)] yields, in the order the
    generator yields them. *)
Definition synthesize (pipeline : pipeline_t) (text : string)
    : M (list (list Wav.sample)) :=
  results ← lift (pipeline text VOICE (Float.of_int 1));
  ret (map audio_of results).

(** The seconds and the milliseconds the script derives from a file
    size: [dur = st_size / (24000 * 2)], [dur_ms = round(dur * 1000)]. *)
Definition duration (st_size : Z) : outcome (float * Z) :=
  match Float.int_truediv st_size (24000 * 2) with
  | Raise e => Raise e
  | Return dur =>
    match Float.round (Float.mul dur (Float.of_int 1000)) with
    | Raise e => Raise e
    | Return dur_ms => Return (dur, dur_ms)
    end
  end.

(** The body of [for filename, text in NARRATIONS], on the two
    variables the loop updates. *)
Definition loop_body (pipeline : pipeline_t) (acc : dict * float)
    (entry : string * string) : M (dict * float) :=
  let '(durations, total_dur) := acc in
  let '(filename, text) := entry in
  let out_path := joinpath OUTPUT_DIR filename in
  print (Generating filename text);;
  chunks ← synthesize pipeline text;
  match chunks with
  | [] => ret tt
  | _ :: _ => sf_write out_path (List.concat chunks) 24000
  end;;
  st_size ← stat_st_size out_path;
  '(dur, dur_ms) ← lift (duration st_size);
  let durations := dict_set filename dur_ms durations in
  let total_dur := Float.add total_dur dur in
  print (ClipDone out_path (Float.format_1f dur));;
  ret (durations, total_dur).

Definition run_loop (pipeline : pipeline_t) (table : list (string * string))
    : M (dict * float) :=
  for_each (loop_body pipeline) table ([], Float.zero).

(** [main()], for any narration table. *)
Definition main_on (table : list (string * string)) : M unit :=
  mkdir OUTPUT_DIR;;
  pipeline ← lift (KPipeline "a");
  '(durations, total_dur) ← run_loop pipeline table;
  let dur_path := joinpath OUTPUT_DIR "durations.json" in
  json_dump dur_path durations;;
  print (DurationsSaved dur_path);;
  print (TotalNarration (Float.format_1f total_dur));;
  print AudioGenerationComplete.

Definition main : M unit := main_on NARRATIONS.

(** The exit status of [python generate_audio.py]: 0 when [main]
    returns, 1 when an exception leaves it. *)
Definition exit_status (table : list (string * string)) (fs : filesystem) : Z :=
  match main_on table fs with
  | (Return _, _, _) => 0
  | (Raise _, _, _) => 1
  end.

(** The files a run over [table] is expected to write: one per entry
    whose text yields at least one chunk, at the entry's path, holding
    the chunks end to end. *)
Definition clip_writes (pipeline : pipeline_t) (table : list (string * string))
    : list (string * list Wav.sample * Z) :=
  flat_map
    (fun '(filename, text) =>
       match chunks_of pipeline text with
       | Return (c :: cs) =>
         [(joinpath OUTPUT_DIR filename, List.concat (c :: cs), 24000)]
       | _ => []
       end)
    table.

(** Every value of the dictionary is the rounded duration of the file
    that stands at the path of its key. *)
Definition recorded_from_files (fs : filesystem) (d : dict) : Prop :=
  forall k ms,
    dict_get k d = Some ms ->
    exists content,
      fs !! joinpath OUTPUT_DIR k = Some content
      /\ round_ms (Z.of_nat (length content)) = Return ms.

(** ** Facts about the encoder *)

Lemma length_header samplerate audio :
  length (Wav.header samplerate audio) = Wav.header_size.
Proof. reflexivity. Qed.

Lemma length_payload audio :
  length (Wav.payload audio) = (2 * length audio)%nat.
Proof.
  unfold Wav.payload.
  induction audio as [|s audio IH]; simpl; [reflexivity | rewrite IH; lia].
Qed.

Lemma st_size_encode samplerate audio :
  Z.of_nat (length (Wav.encode samplerate audio))
  = 44 + 2 * Z.of_nat (length audio).
Proof.
  unfold Wav.encode.
  rewrite length_app, length_header, length_payload.
  unfold Wav.header_size. lia.
Qed.

Lemma payload_app a b :
  Wav.payload (a ++ b) = Wav.payload a ++ Wav.payload b.
Proof. apply flat_map_app. Qed.

Lemma payload_concat chunks :
  Wav.payload (List.concat chunks) = List.concat (map Wav.payload chunks).
Proof.
  induction chunks as [|c chunks IH]; simpl; [reflexivity|].
  now rewrite payload_app, IH.
Qed.

Lemma encode_payload samplerate audio :
  drop Wav.header_size (Wav.encode samplerate audio) = Wav.payload audio.
Proof.
  unfold Wav.encode.
  rewrite <- (length_header samplerate audio).
  apply drop_app_length.
Qed.

(** ** Facts about the dict *)

Lemma dict_get_set k k' v d :
  dict_get k (dict_set k' v d) = if decide (k = k') then Some v else dict_get k d.
Proof.
  induction d as [|[k0 v0] d IH]; simpl.
  - repeat case_decide; congruence.
  - destruct (decide (k0 = k')) as [->|Hne]; simpl.
    + repeat case_decide; congruence.
    + rewrite IH. repeat case_decide; congruence.
Qed.

Lemma dict_get_keys k d : is_Some (dict_get k d) <-> k ∈ dict_keys d.
Proof.
  unfold dict_keys.
  induction d as [|[k0 v0] d IH]; simpl.
  - split; [intros [? ?]; discriminate | intros H; inversion H].
  - rewrite elem_of_cons. case_decide as Hk.
    + subst. split; eauto.
    + rewrite IH. split; [auto | intros [->|?]; [congruence | assumption]].
Qed.

Lemma dict_keys_set k v d :
  dict_keys (dict_set k v d)
  = if decide (k ∈ dict_keys d) then dict_keys d else dict_keys d ++ [k].
Proof.
  unfold dict_keys.
  induction d as [|[k0 v0] d IH]; simpl.
  - reflexivity.
  - destruct (decide (k0 = k)) as [->|Hne]; simpl.
    + rewrite decide_True by constructor. reflexivity.
    + rewrite IH. destruct (decide (k ∈ map fst d)) as [Hin|Hnin].
      * rewrite decide_True by (now constructor). reflexivity.
      * rewrite decide_False; [reflexivity|].
        rewrite elem_of_cons. intros [->|?]; congruence.
Qed.

(** ** Facts about first occurrences *)

Lemma filter_ne_absent (x : string) (l : list string) :
  x ∉ l -> filter (fun y => y ≠ x) l = l.
Proof.
  induction l as [|y l IH]; intros Hx; [reflexivity|].
  rewrite not_elem_of_cons in Hx. destruct Hx as [Hxy Hxl].
  rewrite filter_cons_True by congruence.
  now rewrite IH.
Qed.

Lemma first_occurrences_NoDup (l : list string) : NoDup l -> first_occurrences l = l.
Proof.
  induction 1 as [|x l Hx Hl IH]; simpl; [reflexivity|].
  rewrite IH. f_equal. now apply filter_ne_absent.
Qed.

Lemma filter_first_occurrences_skip (K : list string) x (l : list string) :
  x ∈ K ->
  filter (fun y => y ∉ K) (filter (fun y => y ≠ x) l)
  = filter (fun y => y ∉ K) l.
Proof.
  intros Hx. rewrite list_filter_filter.
  apply list_filter_iff. intros y. split; [tauto|].
  intros Hy. split; [assumption|]. intros ->. contradiction.
Qed.

Lemma filter_first_occurrences_snoc (K : list string) x (l : list string) :
  filter (fun y => y ∉ K ++ [x]) l
  = filter (fun y => y ∉ K) (filter (fun y => y ≠ x) l).
Proof.
  rewrite list_filter_filter.
  apply list_filter_iff. intros y.
  rewrite elem_of_app, list_elem_of_singleton. tauto.
Qed.

(** ** Running statements *)

Local Abbreviation out f := (joinpath OUTPUT_DIR f).
Local Abbreviation dur_path := (joinpath OUTPUT_DIR "durations.json").

Lemma bind_run {A B} (m : M A) (k : A -> M B) fs :
  (m ≫= k) fs =
  match m fs with
  | (Return a, fs1, ev1) =>
    let '(r, fs2, ev2) := k a fs1 in (r, fs2, ev1 ++ ev2)
  | (Raise e, fs1, ev1) => (Raise e, fs1, ev1)
  end.
Proof. reflexivity. Qed.

Lemma for_each_cons {A S} (body : S -> A -> M S) x xs acc fs :
  for_each body (x :: xs) acc fs =
  match body acc x fs with
  | (Return acc1, fs1, ev1) =>
    let '(r, fs2, ev2) := for_each body xs acc1 fs1 in (r, fs2, ev1 ++ ev2)
  | (Raise e, fs1, ev1) => (Raise e, fs1, ev1)
  end.
Proof. reflexivity. Qed.

Lemma for_each_cons_Return {A S} (body : S -> A -> M S) x xs acc fs r fs' ev :
  for_each body (x :: xs) acc fs = (Return r, fs', ev) ->
  exists acc1 fs1 ev1 ev2,
    body acc x fs = (Return acc1, fs1, ev1)
    /\ for_each body xs acc1 fs1 = (Return r, fs', ev2)
    /\ ev = ev1 ++ ev2.
Proof.
  rewrite for_each_cons.
  destruct (body acc x fs) as [[[acc1|e] fs1] ev1]; [|discriminate].
  destruct (for_each body xs acc1 fs1) as [[r2 fs2] ev2] eqn:Hrest.
  intros [= -> -> <-]. eauto 8.
Qed.

Lemma for_each_app_Raise {A S} (body : S -> A -> M S) xs x ys acc acc1 fs fs1 ev1
    e fs2 ev2 :
  for_each body xs acc fs = (Return acc1, fs1, ev1) ->
  body acc1 x fs1 = (Raise e, fs2, ev2) ->
  for_each body (xs ++ x :: ys) acc fs = (Raise e, fs2, ev1 ++ ev2).
Proof.
  revert acc fs ev1.
  induction xs as [|y xs IH]; intros acc fs ev1 Hxs Hx.
  - injection Hxs as -> -> <-. simpl app. rewrite for_each_cons, Hx. reflexivity.
  - apply for_each_cons_Return in Hxs
      as (acc0 & fs0 & ev0 & ev0' & Hy & Hrest & ->).
    simpl app. rewrite for_each_cons, Hy.
    rewrite (IH _ _ _ Hrest Hx). now rewrite app_assoc.
Qed.

(** The body of the loop, statement by statement. *)
Lemma loop_body_unfold pipeline durations total_dur filename text fs :
  loop_body pipeline (durations, total_dur) (filename, text) fs =
  let gen := Print (Generating filename text) in
  let measure (fs1 : filesystem) (written : list event) :=
    match fs1 !! out filename with
    | None => (Raise (FileNotFoundError (out filename)), fs1, gen :: written)
    | Some content =>
      let st_size := Z.of_nat (length content) in
      match duration st_size with
      | Raise e => (Raise e, fs1, gen :: written ++ [Stat (out filename) st_size])
      | Return (dur, dur_ms) =>
        (Return (dict_set filename dur_ms durations, Float.add total_dur dur),
         fs1,
         gen :: written
           ++ [Stat (out filename) st_size;
               Print (ClipDone (out filename) (Float.format_1f dur))])
      end
    end in
  match chunks_of pipeline text with
  | Raise e => (Raise e, fs, [gen])
  | Return [] => measure fs []
  | Return (c :: cs) =>
    if io_ok (out filename)
    then measure (<[out filename := Wav.encode 24000 (List.concat (c :: cs))]> fs)
                 [SfWrite (out filename) (List.concat (c :: cs)) 24000]
    else (Raise (LibsndfileError (out filename)), fs, [gen])
  end.
Proof.
  unfold loop_body, synthesize, chunks_of, mbind, M_bind, bind, print, lift, ret,
    stat_st_size, sf_write.
  destruct (pipeline text VOICE (Float.of_int 1)) as [results|e]; [|reflexivity].
  destruct (map audio_of results) as [|c cs]; cbv beta iota zeta.
  - destruct (fs !! out filename) as [content|]; [|reflexivity].
    destruct (duration (Z.of_nat (length content))) as [[dur ms]|e]; reflexivity.
  - destruct (io_ok (out filename)); [|reflexivity].
    destruct (<[out filename := _]> fs !! out filename) as [content|]; [|reflexivity].
    destruct (duration (Z.of_nat (length content))) as [[dur ms]|e]; reflexivity.
Qed.

(** What a normal end of the body says about the entry. *)
Lemma loop_body_Return pipeline durations total_dur filename text fs acc' fs' ev :
  loop_body pipeline (durations, total_dur) (filename, text) fs
    = (Return acc', fs', ev) ->
  exists chunks content dur dur_ms,
    chunks_of pipeline text = Return chunks
    /\ (chunks <> [] -> io_ok (out filename) = true)
    /\ fs' = match chunks with
             | [] => fs
             | _ :: _ => <[out filename := Wav.encode 24000 (List.concat chunks)]> fs
             end
    /\ fs' !! out filename = Some content
    /\ duration (Z.of_nat (length content)) = Return (dur, dur_ms)
    /\ acc' = (dict_set filename dur_ms durations, Float.add total_dur dur)
    /\ ev = Print (Generating filename text)
            :: match chunks with
               | [] => []
               | _ :: _ => [SfWrite (out filename) (List.concat chunks) 24000]
               end
            ++ [Stat (out filename) (Z.of_nat (length content));
                Print (ClipDone (out filename) (Float.format_1f dur))].
Proof.
  rewrite loop_body_unfold. cbv beta zeta.
  destruct (chunks_of pipeline text) as [[|c cs]|e]; [| |discriminate].
  - destruct (fs !! out filename) as [content|] eqn:Hfile; [|discriminate].
    destruct (duration _) as [[dur ms]|e] eqn:Hdur; [|discriminate].
    intros [= <- <- <-].
    exists [], content, dur, ms. repeat split; auto; congruence.
  - destruct (io_ok (out filename)) eqn:Hok; [|discriminate].
    destruct (<[out filename := _]> fs !! out filename) as [content|] eqn:Hfile;
      [|discriminate].
    destruct (duration _) as [[dur ms]|e] eqn:Hdur; [|discriminate].
    intros [= <- <- <-].
    exists (c :: cs), content, dur, ms. repeat split; auto.
Qed.

(** [main], statement by statement. *)
Lemma main_on_unfold table fs :
  main_on table fs =
  if io_ok OUTPUT_DIR then
    match KPipeline "a" with
    | Raise e => (Raise e, fs, [Mkdir OUTPUT_DIR])
    | Return pipeline =>
      match run_loop pipeline table fs with
      | (Raise e, fs1, ev) => (Raise e, fs1, Mkdir OUTPUT_DIR :: ev)
      | (Return (durations, total_dur), fs1, ev) =>
        if io_ok dur_path then
          (Return tt,
           <[dur_path := list_byte_of_string (json_dumps durations)]> fs1,
           Mkdir OUTPUT_DIR
             :: ev ++ [JsonDump dur_path durations;
                       Print (DurationsSaved dur_path);
                       Print (TotalNarration (Float.format_1f total_dur));
                       Print AudioGenerationComplete])
        else (Raise (OSError dur_path), fs1, Mkdir OUTPUT_DIR :: ev)
      end
    end
  else (Raise (OSError OUTPUT_DIR), fs, []).
Proof.
  unfold main_on, mbind, M_bind, bind, print, lift, ret, mkdir, json_dump.
  destruct (io_ok OUTPUT_DIR); [|reflexivity].
  destruct (KPipeline "a") as [pipeline|e]; [|reflexivity].
  destruct (run_loop pipeline table fs) as [[[[durations total_dur]|e] fs1] ev];
    [|reflexivity].
  destruct (io_ok dur_path); [reflexivity|].
  cbn [app]. now rewrite app_nil_r.
Qed.

(** ** Reading the events of the loop *)

Lemma writes_app ev1 ev2 : writes (ev1 ++ ev2) = writes ev1 ++ writes ev2.
Proof.
  induction ev1 as [|[] ev1 IH]; simpl; try assumption; [reflexivity|].
  now rewrite IH.
Qed.

Lemma stats_app ev1 ev2 : stats (ev1 ++ ev2) = stats ev1 ++ stats ev2.
Proof.
  induction ev1 as [|[] ev1 IH]; simpl; try assumption; [reflexivity|].
  now rewrite IH.
Qed.

Lemma dumps_app ev1 ev2 : dumps (ev1 ++ ev2) = dumps ev1 ++ dumps ev2.
Proof.
  induction ev1 as [|[] ev1 IH]; simpl; try assumption; [reflexivity|].
  now rewrite IH.
Qed.

Lemma started_app ev1 ev2 : started (ev1 ++ ev2) = started ev1 ++ started ev2.
Proof.
  induction ev1 as [|[| [] | | |] ev1 IH]; simpl; try assumption; [reflexivity|].
  now rewrite IH.
Qed.

Lemma duration_Return st_size dur dur_ms :
  duration st_size = Return (dur, dur_ms) <->
  seconds_of st_size = Return dur
  /\ Float.round (Float.mul dur (Float.of_int 1000)) = Return dur_ms.
Proof.
  unfold duration, seconds_of.
  change (24000 * 2) with 48000.
  destruct (Float.int_truediv st_size 48000) as [d|e].
  - destruct (Float.round (Float.mul d (Float.of_int 1000))) as [ms|e] eqn:Hr.
    + split; [intros [= <- <-]; auto | intros [[= <-] H]].
      rewrite Hr in H. now injection H as <-.
    + split; [discriminate | intros [[= <-] H]].
      rewrite Hr in H. discriminate.
  - split; [discriminate | intros [[=] _]].
Qed.

Lemma duration_round_ms st_size dur dur_ms :
  duration st_size = Return (dur, dur_ms) -> round_ms st_size = Return dur_ms.
Proof.
  rewrite duration_Return. unfold round_ms, seconds_of.
  now intros [-> ->].
Qed.

(** Taking one step of the loop apart. *)
Ltac loop_step H :=
  let Hbody := fresh "Hbody" in
  apply for_each_cons_Return in H
    as ([d_next total_next] & fs_next & ev_body & ev_rest & Hbody & H & ->);
  apply loop_body_Return in Hbody
    as (chunks & content & dur & ms
        & Hchunks & Hok & Hfs & Hfile & Hdur & [= -> ->] & ->).

(** No statement of the loop dumps JSON, however the loop ends. *)
Lemma loop_body_dumps pipeline acc entry fs r fs' ev :
  loop_body pipeline acc entry fs = (r, fs', ev) -> dumps ev = [].
Proof.
  destruct acc as [d total], entry as [f t].
  rewrite loop_body_unfold. cbv beta zeta.
  destruct (chunks_of pipeline t) as [[|c cs]|e].
  - destruct (fs !! out f); [destruct (duration _) as [[]|]|];
      intros [= <- <- <-]; reflexivity.
  - destruct (io_ok (out f));
      [destruct (_ !! _); [destruct (duration _) as [[]|]|]|];
      intros [= <- <- <-]; reflexivity.
  - intros [= <- <- <-]; reflexivity.
Qed.

Lemma run_loop_dumps pipeline table acc fs r fs' ev :
  for_each (loop_body pipeline) table acc fs = (r, fs', ev) -> dumps ev = [].
Proof.
  revert acc fs r fs' ev.
  induction table as [|entry table IH]; intros acc fs r fs' ev.
  - intros [= <- <- <-]. reflexivity.
  - rewrite for_each_cons.
    destruct (loop_body pipeline acc entry fs) as [[[acc1|e] fs1] ev1] eqn:Hbody.
    + destruct (for_each _ table acc1 fs1) as [[r2 fs2] ev2] eqn:Hrest.
      intros [= <- <- <-]. rewrite dumps_app.
      now rewrite (loop_body_dumps _ _ _ _ _ _ _ Hbody), (IH _ _ _ _ _ Hrest).
    + intros [= <- <- <-]. exact (loop_body_dumps _ _ _ _ _ _ _ Hbody).
Qed.

(** A loop that ends normally has started every entry, in order. *)
Lemma run_loop_started pipeline table acc fs acc' fs' ev :
  for_each (loop_body pipeline) table acc fs = (Return acc', fs', ev) ->
  started ev = table.
Proof.
  revert acc fs ev.
  induction table as [|[f t] table IH]; intros [d total] fs ev H.
  - now injection H as <- <- <-.
  - loop_step H. simpl. rewrite started_app.
    destruct chunks; simpl; f_equal; eauto.
Qed.

(** A loop that ends normally wrote the expected clips and no others. *)
Lemma run_loop_writes pipeline table acc fs acc' fs' ev :
  for_each (loop_body pipeline) table acc fs = (Return acc', fs', ev) ->
  writes ev = clip_writes pipeline table.
Proof.
  revert acc fs ev.
  induction table as [|[f t] table IH]; intros [d total] fs ev H.
  - now injection H as <- <- <-.
  - loop_step H. rewrite writes_app, (IH _ _ _ H).
    unfold clip_writes at 2. cbn [flat_map]. rewrite Hchunks.
    destruct chunks; reflexivity.
Qed.

(** A loop that ends normally stat-ed the path of every entry, in order,
    and added the seconds of every size found to the running total. *)
Lemma run_loop_total pipeline table d total fs d' total' fs' ev :
  for_each (loop_body pipeline) table (d, total) fs = (Return (d', total'), fs', ev) ->
  map fst (stats ev) = map (fun entry => out entry.1) table
  /\ exists durs,
       Forall2 (fun st dur => seconds_of st.2 = Return dur) (stats ev) durs
       /\ total' = fold_left Float.add durs total.
Proof.
  revert d total fs ev.
  induction table as [|[f t] table IH]; intros d total fs ev H.
  - injection H as <- <- <- <-. split; [reflexivity|].
    exists []. split; [constructor | reflexivity].
  - loop_step H.
    destruct (IH _ _ _ _ H) as (Hpaths & durs & Hdurs & ->).
    apply duration_Return in Hdur as [Hsec _].
    assert (Hst : stats (Print (Generating f t)
                :: match chunks with
                   | [] => []
                   | _ :: _ => [SfWrite (out f) (List.concat chunks) 24000]
                   end
                ++ [Stat (out f) (Z.of_nat (length content));
                    Print (ClipDone (out f) (Float.format_1f dur))])
              = [(out f, Z.of_nat (length content))])
      by (destruct chunks; reflexivity).
    rewrite stats_app, Hst. simpl. split; [now rewrite Hpaths|].
    exists (dur :: durs). split; [constructor; assumption | reflexivity].
Qed.

(** ** The dictionary and the filesystem along the loop *)

(** The keys after the loop: the keys before it, then the new file
    names in the order of their first occurrence in the table. *)
Lemma run_loop_keys pipeline table d total fs d' total' fs' ev :
  for_each (loop_body pipeline) table (d, total) fs = (Return (d', total'), fs', ev) ->
  dict_keys d'
  = dict_keys d
    ++ filter (fun k => k ∉ dict_keys d) (first_occurrences (map fst table)).
Proof.
  revert d total fs ev.
  induction table as [|[f t] table IH]; intros d total fs ev H.
  - injection H as <- <- <- <-. simpl. now rewrite app_nil_r.
  - loop_step H. rewrite (IH _ _ _ _ H), dict_keys_set. simpl.
    destruct (decide (f ∈ dict_keys d)) as [Hin|Hnin].
    + rewrite filter_cons_False by tauto.
      now rewrite filter_first_occurrences_skip.
    + rewrite filter_cons_True by assumption.
      rewrite filter_first_occurrences_snoc, <- app_assoc. reflexivity.
Qed.

(** The loop leaves alone every path that is not the path of an entry. *)
Lemma run_loop_untouched pipeline table acc fs acc' fs' ev path :
  for_each (loop_body pipeline) table acc fs = (Return acc', fs', ev) ->
  path ∉ map (fun entry => out entry.1) table ->
  fs' !! path = fs !! path.
Proof.
  revert acc fs ev.
  induction table as [|[f t] table IH]; intros [d total] fs ev H Hpath.
  - now injection H as <- <- <-.
  - simpl in Hpath. rewrite not_elem_of_cons in Hpath.
    destruct Hpath as [Hne Hpath].
    loop_step H. rewrite (IH _ _ _ H Hpath), Hfs.
    destruct chunks; [reflexivity|]. now rewrite lookup_insert_ne.
Qed.

(** Every value recorded by the loop is the rounded duration of the file
    that stands at the path of its key. *)
Lemma run_loop_recorded pipeline (names : list string) table :
  (forall k1 k2, k1 ∈ names -> k2 ∈ names -> out k1 = out k2 -> k1 = k2) ->
  forall d total fs d' total' fs' ev,
    (forall k, k ∈ dict_keys d -> k ∈ names) ->
    (forall k, k ∈ map fst table -> k ∈ names) ->
    recorded_from_files fs d ->
    for_each (loop_body pipeline) table (d, total) fs
      = (Return (d', total'), fs', ev) ->
    recorded_from_files fs' d' /\ (forall k, k ∈ dict_keys d' -> k ∈ names).
Proof.
  intros Hinj.
  induction table as [|[f t] table IH]; intros d total fs d' total' fs' ev Hd Ht Hrec H.
  - injection H as <- <- <- <-. now split.
  - loop_step H.
    assert (Hf : f ∈ names) by (apply Ht; simpl; constructor).
    eapply IH; [| |  | exact H].
    + intros k. rewrite dict_keys_set.
      destruct (decide (f ∈ dict_keys d)); [auto|].
      rewrite elem_of_app, list_elem_of_singleton. intros [?| ->]; auto.
    + intros k Hk. apply Ht. simpl. now constructor.
    + intros k v. rewrite dict_get_set.
      destruct (decide (k = f)) as [->|Hne].
      * intros [= <-]. exists content. split; [assumption|].
        eapply duration_round_ms; eassumption.
      * intros Hk. destruct (Hrec _ _ Hk) as (content' & Hfile' & Hms).
        exists content'. split; [|assumption].
        rewrite Hfs. destruct chunks; [assumption|].
        rewrite lookup_insert_ne; [assumption|].
        intros Heq. apply Hne. symmetry. apply Hinj; auto.
        apply Hd, dict_get_keys. eauto.
Qed.

(** Every value the loop records is the rounded duration of a size that
    a stat of the key's path found. *)
Lemma run_loop_recorded_stats pipeline table d total fs d' total' fs' ev :
  for_each (loop_body pipeline) table (d, total) fs
    = (Return (d', total'), fs', ev) ->
  forall k ms,
    dict_get k d' = Some ms ->
    dict_get k d = Some ms
    \/ exists st_size,
         (out k, st_size) ∈ stats ev /\ round_ms st_size = Return ms.
Proof.
  revert d total fs ev.
  induction table as [|[f t] table IH]; intros d total fs ev H k v Hget.
  - injection H as <- <- <- <-. now left.
  - loop_step H. rewrite stats_app.
    assert (Hst : stats (Print (Generating f t)
                :: match chunks with
                   | [] => []
                   | _ :: _ => [SfWrite (out f) (List.concat chunks) 24000]
                   end
                ++ [Stat (out f) (Z.of_nat (length content));
                    Print (ClipDone (out f) (Float.format_1f dur))])
              = [(out f, Z.of_nat (length content))])
      by (destruct chunks; reflexivity).
    rewrite Hst.
    destruct (IH _ _ _ _ H _ _ Hget) as [Hold|(sz & Hin & Hms)].
    + rewrite dict_get_set in Hold.
      destruct (decide (k = f)) as [->|Hne]; [|now left].
      injection Hold as <-. right.
      exists (Z.of_nat (length content)). split; [now left|].
      eapply duration_round_ms; eassumption.
    + right. exists sz. split; [now right | assumption].
Qed.

(** Running the loop again on a filesystem that already holds, at the
    path of every entry, what the first run left there: the same result
    and the same events, and the filesystem does not change. *)
Lemma run_loop_again pipeline table :
  NoDup (map (fun entry => out entry.1) table) ->
  forall acc fsA acc' fsA' ev,
    for_each (loop_body pipeline) table acc fsA = (Return acc', fsA', ev) ->
    forall fsB : filesystem,
      (forall entry, entry ∈ table -> fsB !! out entry.1 = fsA' !! out entry.1) ->
      for_each (loop_body pipeline) table acc fsB = (Return acc', fsB, ev).
Proof.
  induction table as [|[f t] table IH]; intros Hnd [d total] fsA acc' fsA' ev H fsB Hsame.
  - now injection H as <- <- <-.
  - simpl in Hnd. apply NoDup_cons in Hnd as [Hf Hnd].
    pose proof (Hsame (f, t) ltac:(constructor)) as HB. simpl in HB.
    loop_step H.
    rewrite (run_loop_untouched _ _ _ _ _ _ _ _ H Hf), Hfile in HB.
    rewrite for_each_cons, loop_body_unfold, Hchunks. cbv beta zeta.
    assert (Hrest : for_each (loop_body pipeline) table
                      (dict_set f ms d, Float.add total dur) fsB
                    = (Return acc', fsB, ev_rest)).
    { eapply IH; [assumption | exact H |].
      intros entry Hentry. apply Hsame. now constructor. }
    destruct chunks as [|c cs].
    + rewrite HB, Hdur, Hrest. reflexivity.
    + rewrite Hok by discriminate.
      rewrite Hfs, lookup_insert_eq in Hfile. injection Hfile as <-.
      rewrite (insert_id fsB _ _ HB), HB, Hdur, Hrest. reflexivity.
Qed.

(** ** Reading a run of [main] *)

Lemma main_on_Return table fs fs' ev :
  main_on table fs = (Return tt, fs', ev) ->
  exists pipeline durations total_dur fsL evL,
    io_ok OUTPUT_DIR = true
    /\ KPipeline "a" = Return pipeline
    /\ run_loop pipeline table fs = (Return (durations, total_dur), fsL, evL)
    /\ io_ok dur_path = true
    /\ fs' = <[dur_path := list_byte_of_string (json_dumps durations)]> fsL
    /\ ev = Mkdir OUTPUT_DIR
              :: evL ++ [JsonDump dur_path durations;
                         Print (DurationsSaved dur_path);
                         Print (TotalNarration (Float.format_1f total_dur));
                         Print AudioGenerationComplete].
Proof.
  rewrite main_on_unfold.
  destruct (io_ok OUTPUT_DIR); [|discriminate].
  destruct (KPipeline "a") as [pipeline|e]; [|discriminate].
  destruct (run_loop pipeline table fs) as [[[[d total]|e] fsL] evL] eqn:Hloop;
    [|discriminate].
  destruct (io_ok dur_path); [|discriminate].
  intros [= <- <-]. exists pipeline, d, total, fsL, evL. auto 10.
Qed.

Lemma main_on_loop_Raise table fs pipeline e fsL evL :
  io_ok OUTPUT_DIR = true ->
  KPipeline "a" = Return pipeline ->
  run_loop pipeline table fs = (Raise e, fsL, evL) ->
  main_on table fs = (Raise e, fsL, Mkdir OUTPUT_DIR :: evL).
Proof.
  intros Hdir Hk Hloop. now rewrite main_on_unfold, Hdir, Hk, Hloop.
Qed.

Lemma main_on_Raise_dumps table fs e fs' ev :
  main_on table fs = (Raise e, fs', ev) -> dumps ev = [].
Proof.
  rewrite main_on_unfold.
  destruct (io_ok OUTPUT_DIR); [|now intros [= <- <- <-]].
  destruct (KPipeline "a") as [pipeline|e0]; [|now intros [= <- <- <-]].
  destruct (run_loop pipeline table fs) as [[[[d total]|e0] fsL] evL] eqn:Hloop.
  - destruct (io_ok dur_path); [discriminate|].
    intros [= <- <- <-]. exact (run_loop_dumps _ _ _ _ _ _ _ Hloop).
  - intros [= <- <- <-]. exact (run_loop_dumps _ _ _ _ _ _ _ Hloop).
Qed.

Lemma filter_notin_nil (l : list string) :
  filter (fun k => k ∉ @nil string) l = l.
Proof.
  induction l as [|x l IH]; [reflexivity|].
  rewrite filter_cons_True by apply not_elem_of_nil. now rewrite IH.
Qed.

(** With one entry per path, the clip of every entry that yields chunks
    is still at its path when the loop ends. *)
Lemma run_loop_files pipeline table :
  NoDup (map (fun entry => out entry.1) table) ->
  forall acc fs acc' fs' ev,
    for_each (loop_body pipeline) table acc fs = (Return acc', fs', ev) ->
    forall f t c cs,
      (f, t) ∈ table ->
      chunks_of pipeline t = Return (c :: cs) ->
      fs' !! out f = Some (Wav.encode 24000 (List.concat (c :: cs))).
Proof.
  induction table as [|[f0 t0] table IH];
    intros Hnd [d total] fs acc' fs' ev H f t c cs Hin Hc.
  - inversion Hin.
  - simpl in Hnd. apply NoDup_cons in Hnd as [Hf0 Hnd].
    loop_step H. apply elem_of_cons in Hin as [[= -> ->]|Hin].
    + rewrite (run_loop_untouched _ _ _ _ _ _ _ _ H Hf0), Hfs.
      rewrite Hc in Hchunks. injection Hchunks as <-.
      apply lookup_insert_eq.
    + eapply IH; eauto.
Qed.

(** What the body wrote, whatever its outcome: the clip of the entry,
    unless [sf.write] itself was refused. *)
Lemma loop_body_writes pipeline acc filename text fs r fs' ev :
  loop_body pipeline acc (filename, text) fs = (r, fs', ev) ->
  (forall path, r <> Raise (LibsndfileError path)) ->
  started ev = [(filename, text)]
  /\ writes ev = clip_writes pipeline [(filename, text)].
Proof.
  destruct acc as [d total].
  rewrite loop_body_unfold. cbv beta zeta.
  unfold clip_writes. cbn [flat_map]. rewrite app_nil_r.
  destruct (chunks_of pipeline text) as [[|c cs]|e].
  - destruct (fs !! out filename); [destruct (duration _) as [[]|]|];
      intros [= <- <- <-] _; split; reflexivity.
  - destruct (io_ok (out filename)).
    + destruct (_ !! _); [destruct (duration _) as [[]|]|];
        intros [= <- <- <-] _; split; reflexivity.
    + intros [= <- <- <-] Hr. now destruct (Hr (out filename)).
  - intros [= <- <- <-] _. split; reflexivity.
Qed.

Lemma run_loop_writes_started pipeline table acc fs r fs' ev :
  for_each (loop_body pipeline) table acc fs = (r, fs', ev) ->
  (forall path, r <> Raise (LibsndfileError path)) ->
  writes ev = clip_writes pipeline (started ev).
Proof.
  revert acc fs r fs' ev.
  induction table as [|[f t] table IH]; intros acc fs r fs' ev H Hr.
  - injection H as <- <- <-. reflexivity.
  - rewrite for_each_cons in H.
    destruct (loop_body pipeline acc (f, t) fs) as [[[acc1|e] fs1] ev1] eqn:Hbody.
    + destruct (for_each _ table acc1 fs1) as [[r2 fs2] ev2] eqn:Hrest.
      injection H as <- <- <-.
      apply loop_body_writes in Hbody as [Hst Hw]; [|discriminate].
      rewrite writes_app, started_app, Hst, Hw, (IH _ _ _ _ _ Hrest Hr).
      unfold clip_writes. cbn [flat_map app]. now rewrite app_nil_r.
    + injection H as <- <- <-.
      apply loop_body_writes in Hbody as [Hst Hw]; [|assumption].
      now rewrite Hst, Hw.
Qed.

(** ** The claims *)

(** C5.  Whatever the outcome, when the loop works on an entry whose
    synthesis yields at least one chunk and [sf.write] is not refused,
    exactly one file is written: at the entry's file name under the
    output directory, holding the entry's chunks end to end at
    24000 Hz; it stands on disk when the body ends and its PCM payload
    is the payloads of the chunks, one after the other.  For a whole
    run, whatever its outcome short of a refused [sf.write], the files
    written are exactly one per entry that was started and yields
    chunks, in table order.  In a run that completes every entry was
    started; when the entries have distinct paths, none of them the
    path of [durations.json], each such file is on disk at the end. *)
Theorem clip_written_for_every_entry_with_chunks :
  (forall pipeline acc filename text fs r fs' ev c cs,
      chunks_of pipeline text = Return (c :: cs) ->
      io_ok (out filename) = true ->
      loop_body pipeline acc (filename, text) fs = (r, fs', ev) ->
      writes ev = [(out filename, List.concat (c :: cs), 24000)]
      /\ fs' = <[out filename := Wav.encode 24000 (List.concat (c :: cs))]> fs
      /\ fs' !! out filename = Some (Wav.encode 24000 (List.concat (c :: cs)))
      /\ drop Wav.header_size (Wav.encode 24000 (List.concat (c :: cs)))
         = List.concat (map Wav.payload (c :: cs)))
  /\ (forall table fs r fs' ev pipeline,
         main_on table fs = (r, fs', ev) ->
         (forall path, r <> Raise (LibsndfileError path)) ->
         KPipeline "a" = Return pipeline ->
         writes ev = clip_writes pipeline (started ev))
  /\ (forall table fs fs' ev,
         main_on table fs = (Return tt, fs', ev) ->
         exists pipeline,
           KPipeline "a" = Return pipeline
           /\ started ev = table
           /\ writes ev = clip_writes pipeline table
           /\ (NoDup (map (fun entry => out entry.1) table) ->
               dur_path ∉ map (fun entry => out entry.1) table ->
               forall f t c cs,
                 (f, t) ∈ table ->
                 chunks_of pipeline t = Return (c :: cs) ->
                 fs' !! out f
                 = Some (Wav.encode 24000 (List.concat (c :: cs))))).
Proof.
  split; [|split].
  - intros pipeline [d total] filename text fs r fs' ev c cs Hc Hok.
    rewrite loop_body_unfold, Hc, Hok. cbv beta zeta.
    rewrite lookup_insert_eq.
    destruct (duration _) as [[dur ms]|e]; intros [= <- <- <-];
      (split; [reflexivity|]; split; [reflexivity|];
       split; [apply lookup_insert_eq|];
       now rewrite encode_payload, payload_concat).
  - intros table fs r fs' ev pipeline. rewrite main_on_unfold.
    destruct (io_ok OUTPUT_DIR); [|intros [= <- <- <-]; reflexivity].
    intros H Hr Hk. rewrite Hk in H. unfold run_loop in H.
    destruct (for_each _ table _ fs) as [[[[d total]|e] fsL] evL] eqn:Hloop.
    + assert (Hw : writes evL = clip_writes pipeline (started evL))
        by (apply (run_loop_writes_started _ _ _ _ _ _ _ Hloop); discriminate).
      destruct (io_ok dur_path); injection H as <- <- <-;
        cbn [writes started];
        rewrite ?writes_app, ?started_app, ?app_nil_r; exact Hw.
    + injection H as <- <- <-. cbn [writes started].
      apply (run_loop_writes_started _ _ _ _ _ _ _ Hloop).
      intros path [= ->]. now apply (Hr path).
  - intros table fs fs' ev H.
    apply main_on_Return in H
      as (pipeline & d & total & fsL & evL & _ & Hk & Hloop & _ & -> & ->).
    exists pipeline. split; [assumption|]. split; [|split].
    + cbn [started]. rewrite started_app, app_nil_r.
      exact (run_loop_started _ _ _ _ _ _ _ Hloop).
    + cbn [writes]. rewrite writes_app, app_nil_r.
      exact (run_loop_writes _ _ _ _ _ _ _ Hloop).
    + intros Hnd Hdur f t c cs Hin Hc.
      rewrite lookup_insert_ne.
      * eapply run_loop_files; eauto.
      * intros Heq. apply Hdur. rewrite Heq.
        apply (list_elem_of_fmap_2 (fun entry => out entry.1) _ (f, t) Hin).
Qed.

(** C6.  In a run that completes, the keys of the dictionary dumped to
    [durations.json] are the file names of the table in the order of
    their first occurrence; when the file names of the table are
    distinct, the keys are the file names of the table, in table
    order. *)
Theorem durations_keys_follow_table_order table fs fs' ev :
  main_on table fs = (Return tt, fs', ev) ->
  exists durations,
    dumps ev = [(dur_path, durations)]
    /\ fs' !! dur_path = Some (list_byte_of_string (json_dumps durations))
    /\ dict_keys durations = first_occurrences (map fst table)
    /\ (NoDup (map fst table) -> dict_keys durations = map fst table).
Proof.
  intros H.
  apply main_on_Return in H
    as (pipeline & d & total & fsL & evL & _ & Hk & Hloop & _ & -> & ->).
  exists d.
  assert (Hkeys : dict_keys d = first_occurrences (map fst table)).
  { rewrite (run_loop_keys _ _ _ _ _ _ _ _ _ Hloop). simpl.
    apply filter_notin_nil. }
  repeat split.
  - cbn [dumps]. rewrite dumps_app, (run_loop_dumps _ _ _ _ _ _ _ Hloop).
    reflexivity.
  - apply lookup_insert_eq.
  - assumption.
  - intros Hnd. rewrite Hkeys. now apply first_occurrences_NoDup.
Qed.

(** C7.  In a run that completes, the loop stats the path of every
    entry in table order, and the total printed at the end is the float
    sum, accumulated from 0.0 in that order, of the unrounded seconds
    [st_size / 48000] of the sizes found. *)
Theorem total_is_sum_of_unrounded_seconds table fs fs' ev :
  main_on table fs = (Return tt, fs', ev) ->
  exists evL durations durs,
    ev = Mkdir OUTPUT_DIR
           :: evL ++ [JsonDump dur_path durations;
                      Print (DurationsSaved dur_path);
                      Print (TotalNarration
                               (Float.format_1f (fold_left Float.add durs Float.zero)));
                      Print AudioGenerationComplete]
    /\ map fst (stats evL) = map (fun entry => out entry.1) table
    /\ Forall2 (fun st dur => seconds_of st.2 = Return dur) (stats evL) durs.
Proof.
  intros H.
  apply main_on_Return in H
    as (pipeline & d & total & fsL & evL & _ & Hk & Hloop & _ & -> & ->).
  apply run_loop_total in Hloop as (Hpaths & durs & Hdurs & ->).
  exists evL, d, durs. auto.
Qed.

(** C4.  In a run that completes, every value of the dumped dictionary
    is [round(fileSizeBytes / 48000 * 1000)] for a size that the stat of
    its key's path found during the run.  When the file names of the
    table have distinct paths, none of them the path of
    [durations.json], that size is the size of the file that stands at
    the path of the key when the run ends. *)
Theorem recorded_ms_is_rounded_file_size table fs fs' ev :
  main_on table fs = (Return tt, fs', ev) ->
  exists durations,
    dumps ev = [(dur_path, durations)]
    /\ (forall k ms,
           dict_get k durations = Some ms ->
           exists st_size,
             (out k, st_size) ∈ stats ev /\ round_ms st_size = Return ms)
    /\ ((forall k1 k2,
            k1 ∈ map fst table -> k2 ∈ map fst table ->
            out k1 = out k2 -> k1 = k2) ->
        (forall k, k ∈ map fst table -> out k <> dur_path) ->
        forall k ms,
          dict_get k durations = Some ms ->
          exists content,
            fs' !! out k = Some content
            /\ round_ms (Z.of_nat (length content)) = Return ms).
Proof.
  intros H.
  apply main_on_Return in H
    as (pipeline & d & total & fsL & evL & _ & Hk & Hloop & _ & -> & ->).
  exists d. split; [|split].
  - cbn [dumps]. rewrite dumps_app, (run_loop_dumps _ _ _ _ _ _ _ Hloop).
    reflexivity.
  - intros k ms Hget.
    destruct (run_loop_recorded_stats _ _ _ _ _ _ _ _ _ Hloop _ _ Hget)
      as [[=]|(sz & Hin & Hms)].
    exists sz. split; [|assumption].
    cbn [stats]. rewrite stats_app. apply elem_of_app. now left.
  - intros Hinj Hdur.
    destruct (run_loop_recorded pipeline (map fst table) table Hinj
                [] Float.zero fs d total fsL evL) as [Hrec Hkeys].
    + intros k Hk'. inversion Hk'.
    + auto.
    + intros k ms [=].
    + exact Hloop.
    + intros k ms Hget.
      destruct (Hrec _ _ Hget) as (content & Hfile & Hms).
      exists content. split; [|assumption].
      rewrite lookup_insert_ne; [assumption|].
      intros Heq. apply (Hdur k); [|now symmetry].
      apply Hkeys, dict_get_keys. eauto.
Qed.

(** C8.  When the entries of the table have distinct paths, none of
    them the path of [durations.json], a second run on the filesystem
    the first run left behind completes as the first one did, goes
    through the same events (so it writes every clip and
    [durations.json] again, over the files of the first run) and leaves
    every file, [durations.json] included, byte for byte as it was. *)
Theorem second_run_changes_nothing table fs fs1 ev :
  NoDup (map (fun entry => out entry.1) table) ->
  dur_path ∉ map (fun entry => out entry.1) table ->
  main_on table fs = (Return tt, fs1, ev) ->
  main_on table fs1 = (Return tt, fs1, ev).
Proof.
  intros Hnd Hdur H.
  apply main_on_Return in H
    as (pipeline & d & total & fsL & evL & Hdir & Hk & Hloop & Hjson & -> & ->).
  rewrite main_on_unfold, Hdir, Hk. unfold run_loop in *.
  rewrite (run_loop_again pipeline table Hnd _ _ _ _ _ Hloop).
  - rewrite Hjson, insert_insert_eq. reflexivity.
  - intros entry Hentry. apply lookup_insert_ne.
    intros Heq. apply Hdur. rewrite Heq.
    apply (list_elem_of_fmap_2 (fun entry => out entry.1) _ entry Hentry).
Qed.

(** C9.  An exception raised while the loop works on an entry, whether
    by the synthesizer, by the write of the clip or by the stat, leaves
    [main] as it is: the run ends there with exit status 1 and nothing
    has been dumped to [durations.json].  A run that ends with an
    exception never has dumped.  A run that completes has exit status 0
    and has dumped exactly once, after the loop has gone through every
    entry of the table. *)
Theorem failure_aborts_before_json_dump table fs :
  (forall pipeline acc f t fs0 e,
      chunks_of pipeline t = Raise e ->
      loop_body pipeline acc (f, t) fs0
      = (Raise e, fs0, [Print (Generating f t)]))
  /\ (forall pipeline acc f t fs0 c cs,
         chunks_of pipeline t = Return (c :: cs) ->
         io_ok (out f) = false ->
         loop_body pipeline acc (f, t) fs0
         = (Raise (LibsndfileError (out f)), fs0, [Print (Generating f t)]))
  /\ (forall pipeline before entry after acc1 fs1 ev1 e fs2 ev2,
         table = before ++ entry :: after ->
         io_ok OUTPUT_DIR = true ->
         KPipeline "a" = Return pipeline ->
         run_loop pipeline before fs = (Return acc1, fs1, ev1) ->
         loop_body pipeline acc1 entry fs1 = (Raise e, fs2, ev2) ->
         main_on table fs = (Raise e, fs2, Mkdir OUTPUT_DIR :: ev1 ++ ev2)
         /\ exit_status table fs = 1
         /\ dumps (Mkdir OUTPUT_DIR :: ev1 ++ ev2) = [])
  /\ (forall e fs' ev,
         main_on table fs = (Raise e, fs', ev) ->
         exit_status table fs = 1 /\ dumps ev = [])
  /\ (forall fs' ev,
         main_on table fs = (Return tt, fs', ev) ->
         exit_status table fs = 0
         /\ exists evL durations total_dur,
              ev = Mkdir OUTPUT_DIR
                     :: evL ++ [JsonDump dur_path durations;
                                Print (DurationsSaved dur_path);
                                Print (TotalNarration (Float.format_1f total_dur));
                                Print AudioGenerationComplete]
              /\ started evL = table
              /\ dumps evL = []
              /\ dumps ev = [(dur_path, durations)]).
Proof.
  split; [|split; [|split; [|split]]].
  - intros pipeline [d total] f t fs0 e Hc.
    now rewrite loop_body_unfold, Hc.
  - intros pipeline [d total] f t fs0 c cs Hc Hok.
    now rewrite loop_body_unfold, Hc, Hok.
  - intros pipeline before entry after acc1 fs1 ev1 e fs2 ev2 -> Hdir Hk Hloop Hbody.
    assert (Hmain : main_on (before ++ entry :: after) fs
                    = (Raise e, fs2, Mkdir OUTPUT_DIR :: ev1 ++ ev2)).
    { apply main_on_loop_Raise with pipeline; [assumption..|].
      unfold run_loop in *. now apply for_each_app_Raise with acc1 fs1. }
    split; [exact Hmain|]. split.
    + unfold exit_status. now rewrite Hmain.
    + exact (main_on_Raise_dumps _ _ _ _ _ Hmain).
  - intros e fs' ev H. split.
    + unfold exit_status. now rewrite H.
    + exact (main_on_Raise_dumps _ _ _ _ _ H).
  - intros fs' ev H. split.
    + unfold exit_status. now rewrite H.
    + apply main_on_Return in H
        as (pipeline & d & total & fsL & evL & _ & Hk & Hloop & _ & -> & ->).
      exists evL, d, total.
      pose proof (run_loop_dumps _ _ _ _ _ _ _ Hloop) as Hd.
      repeat split.
      * exact (run_loop_started _ _ _ _ _ _ _ Hloop).
      * exact Hd.
      * cbn [dumps]. now rewrite dumps_app, Hd.
Qed.

(** C10.  The body of the loop stats the path of the entry whether or
    not the synthesizer yielded chunks.  When it yielded none and a
    file stands at the path, nothing is written, the size of that file
    gives the seconds added to the total and the milliseconds recorded
    under the entry's file name.  When it yielded none and no file
    stands at the path, the stat raises [FileNotFoundError] and the run
    ends there, with exit status 1. *)
Theorem duration_step_stats_without_chunks pipeline d total_dur f t fs :
  (forall acc' fs' ev,
      loop_body pipeline (d, total_dur) (f, t) fs = (Return acc', fs', ev) ->
      exists content,
        fs' !! out f = Some content
        /\ stats ev = [(out f, Z.of_nat (length content))])
  /\ (chunks_of pipeline t = Return [] ->
      forall content dur dur_ms,
        fs !! out f = Some content ->
        duration (Z.of_nat (length content)) = Return (dur, dur_ms) ->
        loop_body pipeline (d, total_dur) (f, t) fs
        = (Return (dict_set f dur_ms d, Float.add total_dur dur), fs,
           [Print (Generating f t);
            Stat (out f) (Z.of_nat (length content));
            Print (ClipDone (out f) (Float.format_1f dur))]))
  /\ (chunks_of pipeline t = Return [] ->
      fs !! out f = None ->
      loop_body pipeline (d, total_dur) (f, t) fs
      = (Raise (FileNotFoundError (out f)), fs, [Print (Generating f t)])
      /\ forall before after fs0 ev1,
           io_ok OUTPUT_DIR = true ->
           KPipeline "a" = Return pipeline ->
           run_loop pipeline before fs0 = (Return (d, total_dur), fs, ev1) ->
           main_on (before ++ (f, t) :: after) fs0
           = (Raise (FileNotFoundError (out f)), fs,
              Mkdir OUTPUT_DIR :: ev1 ++ [Print (Generating f t)])
           /\ exit_status (before ++ (f, t) :: after) fs0 = 1).
Proof.
  split; [|split].
  - intros acc' fs' ev H.
    apply loop_body_Return in H
      as (chunks & content & dur & ms & _ & _ & _ & Hfile & _ & _ & ->).
    exists content. split; [assumption|].
    destruct chunks; reflexivity.
  - intros Hc content dur ms Hfile Hdur.
    now rewrite loop_body_unfold, Hc; cbv beta zeta; rewrite Hfile, Hdur.
  - intros Hc Hfile.
    assert (Hbody : loop_body pipeline (d, total_dur) (f, t) fs
                    = (Raise (FileNotFoundError (out f)), fs,
                       [Print (Generating f t)])).
    { now rewrite loop_body_unfold, Hc; cbv beta zeta; rewrite Hfile. }
    split; [exact Hbody|].
    intros before after fs0 ev1 Hdir Hk Hloop.
    assert (Hmain : main_on (before ++ (f, t) :: after) fs0
                    = (Raise (FileNotFoundError (out f)), fs,
                       Mkdir OUTPUT_DIR :: ev1 ++ [Print (Generating f t)])).
    { apply main_on_loop_Raise with pipeline; [assumption..|].
      unfold run_loop in *.
      now apply for_each_app_Raise with (d, total_dur) fs. }
    split; [exact Hmain|].
    unfold exit_status. now rewrite Hmain.
Qed.

(** C3, as amended.  For the table [("a.wav", "Hi")] and a synthesizer
    that yields one chunk of 24000 samples, the run completes and writes
    [a.wav] with a 44-byte header and 48000 bytes of PCM payload; the
    stat finds 48044 bytes, so the dictionary dumped to
    [durations.json] is {"a.wav": 1001}; the total printed is 1.0 (the
    line ends in "s"). *)
Theorem one_second_clip_scenario fs pipeline gs ps (chunk : list Wav.sample) :
  io_ok OUTPUT_DIR = true ->
  io_ok (out "a.wav") = true ->
  io_ok dur_path = true ->
  KPipeline "a" = Return pipeline ->
  pipeline "Hi" VOICE (Float.of_int 1) = Return [(gs, ps, chunk)] ->
  Z.of_nat (length chunk) = 24000 ->
  main_on [("a.wav", "Hi")] fs
  = (Return tt,
     <[dur_path := list_byte_of_string (json_dumps [("a.wav", 1001)])]>
       (<[out "a.wav" := Wav.encode 24000 chunk]> fs),
     [Mkdir OUTPUT_DIR;
      Print (Generating "a.wav" "Hi");
      SfWrite (out "a.wav") chunk 24000;
      Stat (out "a.wav") 48044;
      Print (ClipDone (out "a.wav") "1.0");
      JsonDump dur_path [("a.wav", 1001)];
      Print (DurationsSaved dur_path);
      Print (TotalNarration "1.0");
      Print AudioGenerationComplete])
  /\ length (Wav.header 24000 chunk) = 44%nat
  /\ Z.of_nat (length (Wav.payload chunk)) = 48000.
Proof.
  intros Hdir Hclip Hjson Hk Hp Hlen.
  assert (Hsize : Z.of_nat (length (Wav.encode 24000 chunk)) = 48044)
    by (rewrite st_size_encode; lia).
  assert (Hdur : duration 48044
                 = Return (S754_finite false 4507727927028919 (-52), 1001))
    by (vm_compute; reflexivity).
  split; [|split].
  - rewrite main_on_unfold, Hdir, Hk. unfold run_loop.
    rewrite for_each_cons, loop_body_unfold. unfold chunks_of. rewrite Hp.
    cbn [map audio_of List.concat]. rewrite app_nil_r. cbv beta zeta.
    rewrite Hclip, lookup_insert_eq, Hsize, Hdur.
    cbn [for_each ret app]. rewrite Hjson.
    reflexivity.
  - reflexivity.
  - rewrite length_payload. lia.
Qed.

(** ** More about the filesystem and the events of a run *)

(** Whatever its outcome, the body leaves the filesystem as it was or
    with one file put at the path of the entry. *)
Lemma loop_body_filesystem pipeline acc filename text fs r fs' ev :
  loop_body pipeline acc (filename, text) fs = (r, fs', ev) ->
  fs' = fs \/ exists content, fs' = <[out filename := content]> fs.
Proof.
  destruct acc as [d total].
  rewrite loop_body_unfold. cbv beta zeta.
  destruct (chunks_of pipeline text) as [[|c cs]|e].
  - destruct (fs !! out filename); [destruct (duration _) as [[]|]|];
      intros [= <- <- <-]; now left.
  - destruct (io_ok (out filename)); [|intros [= <- <- <-]; now left].
    destruct (_ !! _); [destruct (duration _) as [[]|]|];
      intros [= <- <- <-]; right; eauto.
  - intros [= <- <- <-]. now left.
Qed.

Lemma run_loop_other_paths pipeline table acc fs r fs' ev path :
  for_each (loop_body pipeline) table acc fs = (r, fs', ev) ->
  path ∉ map (fun entry => out entry.1) table ->
  fs' !! path = fs !! path.
Proof.
  revert acc fs r fs' ev.
  induction table as [|[f t] table IH]; intros acc fs r fs' ev H Hpath.
  - now injection H as <- <- <-.
  - simpl in Hpath. rewrite not_elem_of_cons in Hpath.
    destruct Hpath as [Hne Hpath].
    rewrite for_each_cons in H.
    destruct (loop_body pipeline acc (f, t) fs) as [[[acc1|e] fs1] ev1] eqn:Hbody.
    + destruct (for_each _ table acc1 fs1) as [[r2 fs2] ev2] eqn:Hrest.
      injection H as <- <- <-.
      rewrite (IH _ _ _ _ _ Hrest Hpath).
      apply loop_body_filesystem in Hbody as [->|[content ->]];
        [reflexivity | now rewrite lookup_insert_ne].
    + injection H as <- <- <-.
      apply loop_body_filesystem in Hbody as [->|[content ->]];
        [reflexivity | now rewrite lookup_insert_ne].
Qed.

Lemma run_loop_keeps_files pipeline table acc fs r fs' ev path :
  for_each (loop_body pipeline) table acc fs = (r, fs', ev) ->
  is_Some (fs !! path) -> is_Some (fs' !! path).
Proof.
  revert acc fs r fs' ev.
  induction table as [|[f t] table IH]; intros acc fs r fs' ev H Hpath.
  - now injection H as <- <- <-.
  - assert (Hstep : forall fs1 : filesystem,
               fs1 = fs \/ (exists content, fs1 = <[out f := content]> fs) ->
               is_Some (fs1 !! path)).
    { intros fs1 [->|[content ->]]; [assumption|].
      rewrite lookup_insert. case_decide; [eauto | assumption]. }
    rewrite for_each_cons in H.
    destruct (loop_body pipeline acc (f, t) fs) as [[[acc1|e] fs1] ev1] eqn:Hbody.
    + destruct (for_each _ table acc1 fs1) as [[r2 fs2] ev2] eqn:Hrest.
      injection H as <- <- <-.
      apply (IH _ _ _ _ _ Hrest), Hstep.
      exact (loop_body_filesystem _ _ _ _ _ _ _ _ Hbody).
    + injection H as <- <- <-.
      apply Hstep. exact (loop_body_filesystem _ _ _ _ _ _ _ _ Hbody).
Qed.

(** [main] with any outcome, read back from [main_on_unfold]. *)
Lemma main_on_cases table fs r fs' ev :
  main_on table fs = (r, fs', ev) ->
  (fs' = fs /\ writes ev = [] /\ started ev = [])
  \/ exists pipeline rL fsL evL,
       KPipeline "a" = Return pipeline
       /\ run_loop pipeline table fs = (rL, fsL, evL)
       /\ writes ev = writes evL
       /\ started ev = started evL
       /\ stats ev = stats evL
       /\ (fs' = fsL
           \/ exists durations total_dur,
                rL = Return (durations, total_dur)
                /\ r = Return tt
                /\ fs' = <[dur_path
                             := list_byte_of_string (json_dumps durations)]> fsL).
Proof.
  rewrite main_on_unfold.
  destruct (io_ok OUTPUT_DIR); [|intros [= <- <- <-]; now left].
  destruct (KPipeline "a") as [pipeline|e0]; [|intros [= <- <- <-]; now left].
  destruct (run_loop pipeline table fs) as [[[[d total]|e0] fsL] evL] eqn:Hloop.
  - destruct (io_ok dur_path); intros [= <- <- <-]; right;
      exists pipeline, (Return (d, total)), fsL, evL;
      cbn [writes started stats];
      rewrite ?writes_app, ?started_app, ?stats_app, ?app_nil_r;
      repeat split; eauto 10.
  - intros [= <- <- <-]. right.
    exists pipeline, (Raise e0), fsL, evL. repeat split; auto.
Qed.

(** X1.  Whatever the outcome of the run, a file whose path is neither
    the path of an entry nor the path of [durations.json] is left as it
    was: same content if it existed, still absent if it did not. *)
Theorem other_files_untouched table fs r fs' ev path :
  main_on table fs = (r, fs', ev) ->
  path ∉ map (fun entry => out entry.1) table ->
  path <> dur_path ->
  fs' !! path = fs !! path.
Proof.
  intros H Hpath Hdur.
  apply main_on_cases in H
    as [(-> & _)|(pipeline & rL & fsL & evL & _ & Hloop & _ & _ & _ & Hfs)];
    [reflexivity|].
  unfold run_loop in Hloop.
  rewrite <- (run_loop_other_paths _ _ _ _ _ _ _ _ Hloop Hpath).
  destruct Hfs as [->|(d & total & _ & _ & ->)]; [reflexivity|].
  now apply lookup_insert_ne.
Qed.

(** X2.  Whatever the outcome of the run, no file is removed: every
    path that held a file before the run holds one after it. *)
Theorem no_file_removed table fs r fs' ev path :
  main_on table fs = (r, fs', ev) ->
  is_Some (fs !! path) -> is_Some (fs' !! path).
Proof.
  intros H Hpath.
  apply main_on_cases in H
    as [(-> & _)|(pipeline & rL & fsL & evL & _ & Hloop & _ & _ & _ & Hfs)];
    [assumption|].
  unfold run_loop in Hloop.
  pose proof (run_loop_keeps_files _ _ _ _ _ _ _ _ Hloop Hpath) as HL.
  destruct Hfs as [->|(d & total & _ & _ & ->)]; [assumption|].
  rewrite lookup_insert. case_decide; [eauto | assumption].
Qed.


(** ** Order of processing *)

(** Whatever its outcome, the body starts its entry, and what it wrote
    is the clip of the entry or nothing. *)
Lemma loop_body_progress pipeline acc filename text fs r fs' ev :
  loop_body pipeline acc (filename, text) fs = (r, fs', ev) ->
  started ev = [(filename, text)]
  /\ (writes ev = clip_writes pipeline [(filename, text)]
      \/ (exists e, r = Raise e) /\ writes ev = []).
Proof.
  destruct acc as [d total].
  rewrite loop_body_unfold. cbv beta zeta.
  unfold clip_writes. cbn [flat_map]. rewrite app_nil_r.
  destruct (chunks_of pipeline text) as [[|c cs]|e].
  - destruct (fs !! out filename); [destruct (duration _) as [[]|]|];
      intros [= <- <- <-]; split; auto.
  - destruct (io_ok (out filename));
      [destruct (_ !! _); [destruct (duration _) as [[]|]|]|];
      intros [= <- <- <-]; split; eauto.
  - intros [= <- <- <-]. split; auto.
Qed.

Lemma clip_writes_cons pipeline entry table :
  clip_writes pipeline (entry :: table)
  = clip_writes pipeline [entry] ++ clip_writes pipeline table.
Proof. unfold clip_writes. cbn [flat_map]. now rewrite app_nil_r. Qed.

Lemma run_loop_progress pipeline table acc fs r fs' ev :
  for_each (loop_body pipeline) table acc fs = (r, fs', ev) ->
  started ev `prefix_of` table
  /\ writes ev `prefix_of` clip_writes pipeline table.
Proof.
  revert acc fs r fs' ev.
  induction table as [|[f t] table IH]; intros acc fs r fs' ev H.
  - injection H as <- <- <-. split; apply prefix_nil.
  - rewrite for_each_cons in H. rewrite clip_writes_cons.
    destruct (loop_body pipeline acc (f, t) fs) as [[[acc1|e] fs1] ev1] eqn:Hbody;
      apply loop_body_progress in Hbody as [Hst Hw].
    + destruct (for_each _ table acc1 fs1) as [[r2 fs2] ev2] eqn:Hrest.
      injection H as <- <- <-.
      destruct (IH _ _ _ _ _ Hrest) as [IHs IHw].
      rewrite started_app, writes_app, Hst.
      destruct Hw as [->|[[e [=]] _]].
      split; [now apply prefix_cons | now apply prefix_app].
    + injection H as <- <- <-. rewrite Hst. split.
      * apply prefix_cons, prefix_nil.
      * destruct Hw as [->|[_ ->]]; [apply prefix_app_r; reflexivity | apply prefix_nil].
Qed.

(** X4.  Whatever the outcome of the run, the entries started are an
    initial segment of the table and the clips written are an initial
    segment of the clips a complete run writes, in table order: nothing
    is skipped, nothing is done out of order, and after a failure no
    later entry is touched. *)
Theorem processed_in_table_order table fs r fs' ev :
  main_on table fs = (r, fs', ev) ->
  started ev `prefix_of` table
  /\ forall pipeline,
       KPipeline "a" = Return pipeline ->
       writes ev `prefix_of` clip_writes pipeline table.
Proof.
  intros H.
  apply main_on_cases in H
    as [(_ & Hw & Hs)|(pipeline & rL & fsL & evL & Hk & Hloop & Hw & Hs & _)].
  - rewrite Hw, Hs. split; [apply prefix_nil | intros; apply prefix_nil].
  - unfold run_loop in Hloop.
    destruct (run_loop_progress _ _ _ _ _ _ _ Hloop) as [Hps Hpw].
    rewrite Hw, Hs. split; [assumption|].
    intros pipeline' Hk'. rewrite Hk in Hk'. now injection Hk' as <-.
Qed.

(** ** Runs that do not depend on old files *)

Lemma loop_body_fresh pipeline acc filename text (fsA fsB : filesystem)
    rA fsA' evA rB fsB' evB :
  chunks_of pipeline text <> Return [] ->
  loop_body pipeline acc (filename, text) fsA = (rA, fsA', evA) ->
  loop_body pipeline acc (filename, text) fsB = (rB, fsB', evB) ->
  rA = rB /\ evA = evB
  /\ forall path,
       path = out filename /\ (exists acc', rA = Return acc')
       \/ fsA !! path = fsB !! path ->
       fsA' !! path = fsB' !! path.
Proof.
  destruct acc as [d total]. intros Hne.
  rewrite !loop_body_unfold. cbv beta zeta.
  destruct (chunks_of pipeline text) as [[|c cs]|e]; [congruence| |].
  - destruct (io_ok (out filename)).
    + rewrite !lookup_insert_eq.
      destruct (duration _) as [[dur ms]|e];
        intros [= <- <- <-] [= <- <- <-]; repeat split; auto;
        intros path [[-> _]|Hsame];
        rewrite ?lookup_insert_eq; try reflexivity;
        rewrite !lookup_insert; case_decide; auto.
    + intros [= <- <- <-] [= <- <- <-]. repeat split; auto.
      intros path [[_ [acc' [=]]]|Hsame]. assumption.
  - intros [= <- <- <-] [= <- <- <-]. repeat split; auto.
    intros path [[_ [acc' [=]]]|Hsame]. assumption.
Qed.

Lemma run_loop_fresh pipeline table :
  (forall entry, entry ∈ table -> chunks_of pipeline entry.2 <> Return []) ->
  forall acc (fsA fsB : filesystem) rA fsA' evA rB fsB' evB,
    for_each (loop_body pipeline) table acc fsA = (rA, fsA', evA) ->
    for_each (loop_body pipeline) table acc fsB = (rB, fsB', evB) ->
    rA = rB /\ evA = evB
    /\ forall path,
         path ∈ map (fun entry => out entry.1) table
           /\ (exists acc', rA = Return acc')
         \/ fsA !! path = fsB !! path ->
         fsA' !! path = fsB' !! path.
Proof.
  induction table as [|[f t] table IH];
    intros Hall acc fsA fsB rA fsA' evA rB fsB' evB HA HB.
  - injection HA as <- <- <-. injection HB as <- <- <-.
    repeat split; auto. intros path [[Hin _]|Hsame]; [inversion Hin | assumption].
  - rewrite for_each_cons in HA, HB.
    destruct (loop_body pipeline acc (f, t) fsA) as [[rA1 fsA1] evA1] eqn:HbA.
    destruct (loop_body pipeline acc (f, t) fsB) as [[rB1 fsB1] evB1] eqn:HbB.
    destruct (loop_body_fresh _ _ _ _ _ _ _ _ _ _ _ _
                (Hall (f, t) ltac:(constructor)) HbA HbB)
      as (<- & <- & Hfiles).
    destruct rA1 as [acc1|e].
    + destruct (for_each _ table acc1 fsA1) as [[rA2 fsA2] evA2] eqn:HrA.
      destruct (for_each _ table acc1 fsB1) as [[rB2 fsB2] evB2] eqn:HrB.
      injection HA as <- <- <-. injection HB as <- <- <-.
      destruct (IH ltac:(intros entry Hentry; apply Hall; now constructor)
                   _ _ _ _ _ _ _ _ _ HrA HrB) as (<- & <- & Hrest).
      repeat split; auto.
      intros path [[Hin Hret]|Hsame].
      * simpl in Hin. apply elem_of_cons in Hin as [->|Hin].
        -- apply Hrest. right. apply Hfiles. left. eauto.
        -- apply Hrest. left. auto.
      * apply Hrest. right. apply Hfiles. now right.
    + injection HA as <- <- <-. injection HB as <- <- <-.
      repeat split; auto.
      intros path [[_ [acc' [=]]]|Hsame]. apply Hfiles. now right.
Qed.

(** X5.  When the synthesizer yields at least one chunk (or raises) for
    every entry of the table, the run does not depend on what the
    output directory held before: from any two filesystems it ends the
    same way with the same events, and when it completes, the files at
    the entries' paths and [durations.json] are the same; any other
    file that was the same in both is still the same in both. *)
Theorem run_independent_of_old_files table (fsA fsB : filesystem)
    rA fsA' evA rB fsB' evB :
  (forall pipeline entry,
      KPipeline "a" = Return pipeline ->
      entry ∈ table ->
      chunks_of pipeline entry.2 <> Return []) ->
  main_on table fsA = (rA, fsA', evA) ->
  main_on table fsB = (rB, fsB', evB) ->
  rA = rB /\ evA = evB
  /\ forall path,
       (path = dur_path \/ path ∈ map (fun entry => out entry.1) table)
         /\ rA = Return tt
       \/ fsA !! path = fsB !! path ->
       fsA' !! path = fsB' !! path.
Proof.
  intros Hall. rewrite !main_on_unfold.
  destruct (io_ok OUTPUT_DIR);
    [|intros [= <- <- <-] [= <- <- <-]; repeat split; auto;
      intros path [[_ [=]]|?]; assumption].
  destruct (KPipeline "a") as [pipeline|e0] eqn:Hk;
    [|intros [= <- <- <-] [= <- <- <-]; repeat split; auto;
      intros path [[_ [=]]|?]; assumption].
  unfold run_loop.
  destruct (for_each _ table _ fsA) as [[rLA fsLA] evLA] eqn:HA.
  destruct (for_each _ table _ fsB) as [[rLB fsLB] evLB] eqn:HB.
  destruct (run_loop_fresh pipeline table
              ltac:(intros entry Hentry; now apply Hall)
              _ _ _ _ _ _ _ _ _ HA HB) as (<- & <- & Hfiles).
  destruct rLA as [[d total]|e0].
  - destruct (io_ok dur_path); intros [= <- <- <-] [= <- <- <-];
      repeat split; auto.
    + intros path Hpath. rewrite !lookup_insert. case_decide; [reflexivity|].
      apply Hfiles.
      destruct Hpath as [[[->|Hin] _]|Hsame]; [congruence | left; eauto | now right].
    + intros path [[_ [=]]|Hsame]. apply Hfiles. now right.
  - intros [= <- <- <-] [= <- <- <-]. repeat split; auto.
    intros path [[_ [=]]|Hsame]. apply Hfiles. now right.
Qed.

(** ** The keys and the values of the dumped dictionary *)

Lemma elem_of_first_occurrences (l : list string) x :
  x ∈ first_occurrences l <-> x ∈ l.
Proof.
  induction l as [|y l IH]; simpl; [reflexivity|].
  rewrite !elem_of_cons, list_elem_of_filter, IH.
  destruct (decide (x = y)); tauto.
Qed.

Lemma NoDup_first_occurrences (l : list string) : NoDup (first_occurrences l).
Proof.
  induction l as [|y l IH]; simpl; constructor.
  - rewrite list_elem_of_filter. tauto.
  - now apply NoDup_filter.
Qed.

(** X6.  In a run that completes, the dumped dictionary has no key
    twice, its keys are exactly the file names of the table, and every
    entry of the table has a value under its file name, whether or not
    the synthesizer yielded chunks for it. *)
Theorem every_entry_has_one_key table fs fs' ev :
  main_on table fs = (Return tt, fs', ev) ->
  exists durations,
    dumps ev = [(dur_path, durations)]
    /\ NoDup (dict_keys durations)
    /\ (forall k, k ∈ dict_keys durations <-> k ∈ map fst table)
    /\ (forall filename text,
           (filename, text) ∈ table -> is_Some (dict_get filename durations)).
Proof.
  intros H.
  apply main_on_Return in H
    as (pipeline & d & total & fsL & evL & _ & Hk & Hloop & _ & -> & ->).
  exists d.
  assert (Hkeys : dict_keys d = first_occurrences (map fst table)).
  { rewrite (run_loop_keys _ _ _ _ _ _ _ _ _ Hloop). simpl.
    apply filter_notin_nil. }
  split; [|split; [|split]].
  - cbn [dumps]. rewrite dumps_app, (run_loop_dumps _ _ _ _ _ _ _ Hloop).
    reflexivity.
  - rewrite Hkeys. apply NoDup_first_occurrences.
  - intros k. rewrite Hkeys. apply elem_of_first_occurrences.
  - intros f t Hin. apply dict_get_keys. rewrite Hkeys.
    apply elem_of_first_occurrences.
    apply (list_elem_of_fmap_2 fst _ (f, t) Hin).
Qed.

(** Entries with other file names leave the value of a key alone. *)
Lemma run_loop_get_other pipeline table d total fs d' total' fs' ev k :
  for_each (loop_body pipeline) table (d, total) fs
    = (Return (d', total'), fs', ev) ->
  k ∉ map fst table ->
  dict_get k d' = dict_get k d.
Proof.
  revert d total fs ev.
  induction table as [|[f t] table IH]; intros d total fs ev H Hk.
  - now injection H as <- <- <- <-.
  - simpl in Hk. rewrite not_elem_of_cons in Hk. destruct Hk as [Hne Hk].
    loop_step H. rewrite (IH _ _ _ _ H Hk), dict_get_set.
    now rewrite decide_False.
Qed.

(** The stat of the i-th entry: what it finds and what becomes of it. *)
Lemma run_loop_entry pipeline table :
  forall d total fs d' total' fs' ev i filename text,
    for_each (loop_body pipeline) table (d, total) fs
      = (Return (d', total'), fs', ev) ->
    table !! i = Some (filename, text) ->
    exists st_size ms,
      stats ev !! i = Some (out filename, st_size)
      /\ round_ms st_size = Return ms
      /\ (forall c cs,
             chunks_of pipeline text = Return (c :: cs) ->
             st_size = 44 + 2 * Z.of_nat (length (List.concat (c :: cs))))
      /\ (filename ∉ map fst (drop (S i) table) ->
          dict_get filename d' = Some ms).
Proof.
  induction table as [|[f t] table IH];
    intros d total fs d' total' fs' ev i filename text H Hi; [inversion Hi|].
  loop_step H. rewrite stats_app.
  assert (Hst : stats (Print (Generating f t)
              :: match chunks with
                 | [] => []
                 | _ :: _ => [SfWrite (out f) (List.concat chunks) 24000]
                 end
              ++ [Stat (out f) (Z.of_nat (length content));
                  Print (ClipDone (out f) (Float.format_1f dur))])
            = [(out f, Z.of_nat (length content))])
    by (destruct chunks; reflexivity).
  rewrite Hst. destruct i as [|i].
  - injection Hi as -> ->.
    exists (Z.of_nat (length content)), ms. split; [reflexivity|].
    split; [eapply duration_round_ms; eassumption|]. split.
    + intros c cs Hc. rewrite Hc in Hchunks. injection Hchunks as <-.
      rewrite Hfs, lookup_insert_eq in Hfile. injection Hfile as <-.
      apply st_size_encode.
    + simpl. rewrite drop_0. intros Hlast.
      rewrite (run_loop_get_other _ _ _ _ _ _ _ _ _ _ H Hlast), dict_get_set.
      now rewrite decide_True.
  - simpl in Hi. exact (IH _ _ _ _ _ _ _ _ _ _ H Hi).
Qed.

(** X7.  In a run that completes, the value under a file name is the
    rounded duration of the size found by the stat of the last entry
    of the table with that file name: a later entry with the same file
    name replaces what an earlier one recorded. *)
Theorem last_entry_of_a_name_is_recorded table fs fs' ev i filename text :
  main_on table fs = (Return tt, fs', ev) ->
  table !! i = Some (filename, text) ->
  filename ∉ map fst (drop (S i) table) ->
  exists durations st_size ms,
    dumps ev = [(dur_path, durations)]
    /\ stats ev !! i = Some (out filename, st_size)
    /\ round_ms st_size = Return ms
    /\ dict_get filename durations = Some ms.
Proof.
  intros H Hi Hlast.
  apply main_on_Return in H
    as (pipeline & d & total & fsL & evL & _ & Hk & Hloop & _ & -> & ->).
  destruct (run_loop_entry _ _ _ _ _ _ _ _ _ _ _ _ Hloop Hi)
    as (sz & ms & Hst & Hms & _ & Hget).
  exists d, sz, ms. split; [|split; [|split]].
  - cbn [dumps]. rewrite dumps_app, (run_loop_dumps _ _ _ _ _ _ _ Hloop).
    reflexivity.
  - cbn [stats]. rewrite stats_app. simpl. now rewrite app_nil_r.
  - assumption.
  - auto.
Qed.

(** X8.  In a run that completes, the size measured for an entry whose
    synthesis yielded chunks is 44 bytes plus two bytes per sample of
    its chunks, whatever file stood at its path before: the duration of
    a clip written in this run never comes from an older file. *)
Theorem written_clip_is_measured table fs fs' ev pipeline i filename text c cs :
  main_on table fs = (Return tt, fs', ev) ->
  KPipeline "a" = Return pipeline ->
  table !! i = Some (filename, text) ->
  chunks_of pipeline text = Return (c :: cs) ->
  stats ev !! i
  = Some (out filename, 44 + 2 * Z.of_nat (length (List.concat (c :: cs)))).
Proof.
  intros H Hk Hi Hc.
  apply main_on_Return in H
    as (pipeline' & d & total & fsL & evL & _ & Hk' & Hloop & _ & -> & ->).
  rewrite Hk in Hk'. injection Hk' as <-.
  destruct (run_loop_entry _ _ _ _ _ _ _ _ _ _ _ _ Hloop Hi)
    as (sz & ms & Hst & _ & Hsz & _).
  cbn [stats]. rewrite stats_app. simpl. rewrite app_nil_r.
  now rewrite Hst, (Hsz _ _ Hc).
Qed.

(** X9.  When [main] itself, on the table of the script, completes, the
    dumped dictionary has the sixteen keys 01.wav to 16.wav, in that
    order, whatever the synthesizer and the filesystem were. *)
Theorem main_dumps_the_sixteen_clips fs fs' ev :
  main fs = (Return tt, fs', ev) ->
  exists durations,
    dumps ev = [(dur_path, durations)]
    /\ fs' !! dur_path = Some (list_byte_of_string (json_dumps durations))
    /\ dict_keys durations
       = ["01.wav"; "02.wav"; "03.wav"; "04.wav"; "05.wav"; "06.wav";
          "07.wav"; "08.wav"; "09.wav"; "10.wav"; "11.wav"; "12.wav";
          "13.wav"; "14.wav"; "15.wav"; "16.wav"].
Proof.
  unfold main. intros H.
  apply main_on_Return in H
    as (pipeline & d & total & fsL & evL & _ & Hk & Hloop & _ & -> & ->).
  exists d. split; [|split].
  - cbn [dumps]. rewrite dumps_app, (run_loop_dumps _ _ _ _ _ _ _ Hloop).
    reflexivity.
  - apply lookup_insert_eq.
  - rewrite (run_loop_keys _ _ _ _ _ _ _ _ _ Hloop). simpl dict_keys.
    rewrite app_nil_l, filter_notin_nil.
    apply first_occurrences_NoDup. compute_done.
Qed.

(** ** The sign of what is recorded *)

Lemma binary_round_aux_sign_clear m e l :
  sign_clear (binary_round_aux Float.prec Float.emax false m e l).
Proof.
  unfold binary_round_aux.
  destruct (shr_fexp _ _ m e l) as [mrs1 e1].
  destruct (shr_fexp _ _ _ e1 loc_Exact) as [mrs2 e2].
  destruct (shr_m mrs2); [reflexivity| |exact I].
  destruct (Z.leb _ _); reflexivity.
Qed.

Lemma int_truediv_sign_clear a b x :
  0 <= a -> 0 < b ->
  Float.int_truediv a b = Return x -> sign_clear x.
Proof.
  intros Ha Hb. unfold Float.int_truediv.
  destruct b as [|q|q]; [lia| |lia].
  destruct a as [|p|p]; [intros [= <-]; reflexivity| |lia].
  change (Z.pos p <? 0) with false. change (Z.pos q <? 0) with false.
  unfold SFdiv.
  destruct (SFdiv_core_binary _ _ _ _ _ _) as [[mz ez] lz].
  change (xorb false false) with false.
  pose proof (binary_round_aux_sign_clear mz ez lz) as Hs.
  destruct (binary_round_aux _ _ false mz ez lz);
    intros [= <-] || discriminate; exact Hs.
Qed.

Lemma mul_1000_sign_clear x :
  sign_clear x -> sign_clear (Float.mul x (Float.of_int 1000)).
Proof.
  change (Float.of_int 1000) with (S754_finite false 8796093022208000 (-43)).
  destruct x as [s|s| |s m e]; simpl; intros Hs; subst; try reflexivity.
  apply binary_round_aux_sign_clear.
Qed.

Lemma nearest_even_nonneg m e : 0 <= m -> 0 <= Float.nearest_even m e.
Proof.
  intros Hm. unfold Float.nearest_even.
  destruct (0 <=? e) eqn:He.
  - apply Z.leb_le in He. apply Z.mul_nonneg_nonneg; [assumption|].
    now apply Z.pow_nonneg.
  - apply Z.leb_gt in He.
    assert (Hd : 0 < 2 ^ (- e)) by (apply Z.pow_pos_nonneg; lia).
    pose proof (Z.div_pos m (2 ^ (- e)) Hm Hd) as Hq.
    cbv zeta. repeat (destruct (_ <? _)); [lia|lia|].
    destruct (Z.even _); lia.
Qed.

Lemma round_sign_clear x n :
  sign_clear x -> Float.round x = Return n -> 0 <= n.
Proof.
  destruct x as [s|s| |s m e]; simpl; intros Hs; try discriminate.
  - intros [= <-]. lia.
  - subst s. intros [= <-]. apply nearest_even_nonneg. lia.
Qed.

(** The milliseconds derived from a file size are not negative. *)
Lemma duration_nonneg st_size dur dur_ms :
  0 <= st_size -> duration st_size = Return (dur, dur_ms) -> 0 <= dur_ms.
Proof.
  intros Hsz. rewrite duration_Return. unfold seconds_of. intros [Hdiv Hround].
  apply round_sign_clear in Hround; [assumption|].
  apply mul_1000_sign_clear.
  apply (int_truediv_sign_clear st_size 48000); [assumption | lia | assumption].
Qed.

Lemma run_loop_nonneg pipeline table d total fs d' total' fs' ev :
  (forall k ms, dict_get k d = Some ms -> 0 <= ms) ->
  for_each (loop_body pipeline) table (d, total) fs
    = (Return (d', total'), fs', ev) ->
  forall k ms, dict_get k d' = Some ms -> 0 <= ms.
Proof.
  revert d total fs ev.
  induction table as [|[f t] table IH]; intros d total fs ev Hd H.
  - now injection H as <- <- <- <-.
  - loop_step H. eapply IH; [|exact H].
    intros k v. rewrite dict_get_set.
    destruct (decide (k = f)) as [->|Hne]; [|apply Hd].
    intros [= <-]. eapply duration_nonneg; [|eassumption]. lia.
Qed.

(** X10.  In a run that completes, no value of the dumped dictionary is
    negative, whatever the sizes of the files measured. *)
Theorem recorded_durations_not_negative table fs fs' ev :
  main_on table fs = (Return tt, fs', ev) ->
  exists durations,
    dumps ev = [(dur_path, durations)]
    /\ forall k ms, dict_get k durations = Some ms -> 0 <= ms.
Proof.
  intros H.
  apply main_on_Return in H
    as (pipeline & d & total & fsL & evL & _ & Hk & Hloop & _ & -> & ->).
  exists d. split.
  - cbn [dumps]. rewrite dumps_app, (run_loop_dumps _ _ _ _ _ _ _ Hloop).
    reflexivity.
  - eapply run_loop_nonneg; [|exact Hloop]. intros k ms. discriminate.
Qed.

End Script.

(** ** The script on concrete inputs *)

(** [main] in the concrete world, for a stub synthesizer. *)
Abbreviation run chunks_for table :=
  (main_on World.OUTPUT_DIR World.joinpath World.io_ok
     (World.stub chunks_for) World.json_dumps table).

Lemma joinpath_inj dir a b :
  World.joinpath dir a = World.joinpath dir b -> a = b.
Proof.
  unfold World.joinpath.
  induction dir as [|c dir IH]; cbn; intros H.
  - now injection H.
  - injection H as H. auto.
Qed.

(** The two-clip run completes. *)
Lemma two_clips_run_completes :
  run World.two_clips_chunks World.two_clips ∅
  = (Return tt,
     (run World.two_clips_chunks World.two_clips ∅).1.2,
     (run World.two_clips_chunks World.two_clips ∅).2).
Proof. vm_compute. reflexivity. Qed.

Lemma two_clips_paths_NoDup :
  NoDup (map (fun entry : string * string =>
                World.joinpath World.OUTPUT_DIR entry.1) World.two_clips).
Proof. compute_done. Qed.


(** The table of the script: its file names have distinct paths, none of
    them the path of [durations.json], and a run over it with a stub
    synthesizer completes. *)
Lemma narrations_paths_NoDup :
  NoDup (map (fun entry : string * string =>
                World.joinpath World.OUTPUT_DIR entry.1) NARRATIONS).
Proof. compute_done. Qed.

Lemma narrations_paths_not_durations :
  World.joinpath World.OUTPUT_DIR "durations.json"
  ∉ map (fun entry : string * string =>
           World.joinpath World.OUTPUT_DIR entry.1) NARRATIONS.
Proof. compute_done. Qed.

Lemma narrations_run_completes :
  run World.two_clips_chunks NARRATIONS ∅
  = (Return tt,
     (run World.two_clips_chunks NARRATIONS ∅).1.2,
     (run World.two_clips_chunks NARRATIONS ∅).2).
Proof. vm_compute. reflexivity. Qed.

(** *** Runs that complete *)

Lemma surjective_pairing3 {A B C} (x : A * B * C) : (x.1.1, x.1.2, x.2) = x.
Proof. now destruct x as [[a b] c]. Qed.

Lemma clip_written_for_every_entry_with_chunks_witness :
  writes (loop_body World.OUTPUT_DIR World.joinpath World.io_ok
            (World.stub_pipeline World.skips_there) ([], Float.zero)
            ("a.wav", "Hi") ∅).2
  = [(World.joinpath World.OUTPUT_DIR "a.wav", List.concat [[1; -2]; [3]], 24000)]
  /\ writes (run World.skips_there World.two_clips ∅).2
     = clip_writes World.OUTPUT_DIR World.joinpath
         (World.stub_pipeline World.skips_there)
         (started (run World.skips_there World.two_clips ∅).2)
  /\ writes (run World.two_clips_chunks World.two_clips ∅).2
     = clip_writes World.OUTPUT_DIR World.joinpath
         (World.stub_pipeline World.two_clips_chunks) World.two_clips.
Proof.
  destruct (clip_written_for_every_entry_with_chunks
              World.OUTPUT_DIR World.joinpath World.io_ok
              (World.stub World.skips_there) World.json_dumps)
    as (Hentry & Hrun & _).
  destruct (clip_written_for_every_entry_with_chunks
              World.OUTPUT_DIR World.joinpath World.io_ok
              (World.stub World.two_clips_chunks) World.json_dumps)
    as (_ & _ & Hcomplete).
  split; [|split].
  - exact (proj1 (Hentry (World.stub_pipeline World.skips_there) ([], Float.zero)
                    "a.wav" "Hi" ∅ _ _ _ [1; -2] [[3]]
                    eq_refl eq_refl
                    (eq_sym (surjective_pairing3 _)))).
  - apply (Hrun World.two_clips ∅ _ _ _ (World.stub_pipeline World.skips_there)
             (eq_sym (surjective_pairing3 _))); [|reflexivity].
    intros path. vm_compute. discriminate.
  - destruct (Hcomplete World.two_clips ∅ _ _ two_clips_run_completes)
      as (pipeline & Hk & _ & Hw & _).
    injection Hk as <-. exact Hw.
Defined.

Lemma durations_keys_follow_table_order_witness :
  exists durations,
    dumps (run World.two_clips_chunks World.two_clips ∅).2
    = [(World.joinpath World.OUTPUT_DIR "durations.json", durations)]
    /\ dict_keys durations = ["a.wav"; "b.wav"].
Proof.
  destruct (durations_keys_follow_table_order
              World.OUTPUT_DIR World.joinpath World.io_ok
              (World.stub World.two_clips_chunks) World.json_dumps
              World.two_clips ∅ _ _ two_clips_run_completes)
    as (durations & Hd & _ & Hkeys & _).
  exists durations. split; assumption.
Defined.

Lemma total_is_sum_of_unrounded_seconds_witness :
  exists evL durations durs,
    (run World.two_clips_chunks World.two_clips ∅).2
    = Mkdir World.OUTPUT_DIR
        :: evL ++ [JsonDump (World.joinpath World.OUTPUT_DIR "durations.json") durations;
                   Print (DurationsSaved (World.joinpath World.OUTPUT_DIR "durations.json"));
                   Print (TotalNarration
                            (Float.format_1f (fold_left Float.add durs Float.zero)));
                   Print AudioGenerationComplete]
    /\ map fst (stats evL)
       = map (fun entry : string * string =>
                World.joinpath World.OUTPUT_DIR entry.1) World.two_clips
    /\ Forall2 (fun st dur => seconds_of st.2 = Return dur) (stats evL) durs.
Proof.
  exact (total_is_sum_of_unrounded_seconds
           World.OUTPUT_DIR World.joinpath World.io_ok
           (World.stub World.two_clips_chunks) World.json_dumps
           World.two_clips ∅ _ _ two_clips_run_completes).
Defined.

Lemma recorded_ms_is_rounded_file_size_witness :
  exists durations,
    dumps (run World.two_clips_chunks World.two_clips ∅).2
    = [(World.joinpath World.OUTPUT_DIR "durations.json", durations)]
    /\ forall k ms,
         dict_get k durations = Some ms ->
         exists content,
           (run World.two_clips_chunks World.two_clips ∅).1.2
             !! World.joinpath World.OUTPUT_DIR k = Some content
           /\ round_ms (Z.of_nat (length content)) = Return ms.
Proof.
  destruct (recorded_ms_is_rounded_file_size
              World.OUTPUT_DIR World.joinpath World.io_ok
              (World.stub World.two_clips_chunks) World.json_dumps
              World.two_clips ∅ _ _ two_clips_run_completes)
    as (durations & Hd & _ & Hfiles).
  exists durations. split; [exact Hd|].
  apply Hfiles.
  - intros k1 k2 _ _. apply joinpath_inj.
  - intros k Hk Heq. apply joinpath_inj in Heq. subst k.
    revert Hk. compute_done.
Defined.

Lemma second_run_changes_nothing_witness :
  run World.two_clips_chunks NARRATIONS
      (run World.two_clips_chunks NARRATIONS ∅).1.2
  = (Return tt,
     (run World.two_clips_chunks NARRATIONS ∅).1.2,
     (run World.two_clips_chunks NARRATIONS ∅).2).
Proof.
  exact (second_run_changes_nothing
           World.OUTPUT_DIR World.joinpath World.io_ok
           (World.stub World.two_clips_chunks) World.json_dumps
           NARRATIONS ∅ _ _
           narrations_paths_NoDup narrations_paths_not_durations
           narrations_run_completes).
Defined.

Lemma failure_aborts_before_json_dump_witness :
  exit_status World.OUTPUT_DIR World.joinpath World.io_ok
    (World.stub World.two_clips_chunks) World.json_dumps World.two_clips ∅ = 0
  /\ exit_status World.OUTPUT_DIR World.joinpath World.io_ok
       (World.stub World.no_chunks) World.json_dumps World.two_clips ∅ = 1.
Proof.
  split.
  - exact (proj1 (proj2 (proj2 (proj2 (proj2
             (failure_aborts_before_json_dump
                World.OUTPUT_DIR World.joinpath World.io_ok
                (World.stub World.two_clips_chunks) World.json_dumps
                World.two_clips ∅)))) _ _ two_clips_run_completes)).
  - refine (proj1 (proj2 (proj1 (proj2 (proj2
             (failure_aborts_before_json_dump
                World.OUTPUT_DIR World.joinpath World.io_ok
                (World.stub World.no_chunks) World.json_dumps
                World.two_clips ∅)))
             (World.stub_pipeline World.no_chunks) [] ("a.wav", "Hi")
             [("b.wav", "there")] ([], Float.zero) ∅ []
             (FileNotFoundError (World.joinpath World.OUTPUT_DIR "a.wav")) ∅
             [Print (Generating "a.wav" "Hi")]
             eq_refl eq_refl eq_refl eq_refl _))).
    vm_compute. reflexivity.
Defined.

Lemma duration_step_stats_without_chunks_witness :
  loop_body World.OUTPUT_DIR World.joinpath World.io_ok
    (World.stub_pipeline World.no_chunks) ([], Float.zero) ("a.wav", "Hi") ∅
  = (Raise (FileNotFoundError (World.joinpath World.OUTPUT_DIR "a.wav")), ∅,
     [Print (Generating "a.wav" "Hi")]).
Proof.
  exact (proj1 (proj2 (proj2
           (duration_step_stats_without_chunks
              World.OUTPUT_DIR World.joinpath World.io_ok
              (World.stub World.no_chunks) World.json_dumps
              (World.stub_pipeline World.no_chunks) [] Float.zero "a.wav" "Hi" ∅))
           eq_refl eq_refl)).
Defined.

(** *** The one-second scenario *)

Lemma one_second_clip_scenario_witness :
  Z.of_nat (length World.one_second) = 24000
  /\ run World.one_second_chunks [("a.wav", "Hi")] ∅
     = (Return tt,
        <[World.joinpath World.OUTPUT_DIR "durations.json"
            := list_byte_of_string (World.json_dumps [("a.wav", 1001)])]>
          (<[World.joinpath World.OUTPUT_DIR "a.wav"
               := Wav.encode 24000 World.one_second]> ∅),
        [Mkdir World.OUTPUT_DIR;
         Print (Generating "a.wav" "Hi");
         SfWrite (World.joinpath World.OUTPUT_DIR "a.wav") World.one_second 24000;
         Stat (World.joinpath World.OUTPUT_DIR "a.wav") 48044;
         Print (ClipDone (World.joinpath World.OUTPUT_DIR "a.wav") "1.0");
         JsonDump (World.joinpath World.OUTPUT_DIR "durations.json") [("a.wav", 1001)];
         Print (DurationsSaved (World.joinpath World.OUTPUT_DIR "durations.json"));
         Print (TotalNarration "1.0");
         Print AudioGenerationComplete]).
Proof.
  assert (Hlen : Z.of_nat (length World.one_second) = 24000)
    by (vm_compute; reflexivity).
  split; [exact Hlen|].
  exact (proj1 (one_second_clip_scenario
                  World.OUTPUT_DIR World.joinpath World.io_ok
                  (World.stub World.one_second_chunks) World.json_dumps
                  ∅ (World.stub_pipeline World.one_second_chunks) EmptyString EmptyString
                  World.one_second eq_refl eq_refl eq_refl eq_refl eq_refl Hlen)).
Defined.

(** C3, as stated, fails: with one chunk of 24000 samples the dictionary
    dumped to [durations.json] is not {"a.wav": 1000}.  The file on disk
    has 48044 bytes, header included, and
    [round(48044 / 48000 * 1000)] is 1001. *)
Lemma one_second_clip_is_not_1000 :
  ~ (exists fs' ev,
        run World.one_second_chunks [("a.wav", "Hi")] ∅ = (Return tt, fs', ev)
        /\ dumps ev
           = [(World.joinpath World.OUTPUT_DIR "durations.json", [("a.wav", 1000)])]).
Proof.
  intros (fs' & ev & Hrun & Hdumps).
  assert (Hc : dumps (run World.one_second_chunks [("a.wav", "Hi")] ∅).2
               = [(World.joinpath World.OUTPUT_DIR "durations.json",
                   [("a.wav", 1001)])])
    by (vm_compute; reflexivity).
  rewrite Hrun in Hc. simpl snd in Hc. rewrite Hdumps in Hc. discriminate.
Qed.

(** *** Entries for which the synthesizer yields nothing *)

(** C1 at a failing input.  The table has one entry and the synthesizer
    yields no chunk for it.  On an empty output directory the run ends
    with [FileNotFoundError] at the stat of [a.wav], before anything is
    dumped.  With a 52-byte [a.wav] left by an earlier run, the run
    completes without writing a clip and records 1 ms under "a.wav". *)
Lemma empty_synthesis_raises_or_records :
  run World.no_chunks [("a.wav", "Hi")] ∅
  = (Raise (FileNotFoundError "output/audio/a.wav"), ∅,
     [Mkdir "output/audio"; Print (Generating "a.wav" "Hi")])
  /\ run World.no_chunks [("a.wav", "Hi")] {[ "output/audio/a.wav" := World.stale ]}
     = (Return tt,
        <["output/audio/durations.json"
            := list_byte_of_string (World.json_dumps [("a.wav", 1)])]>
          {[ "output/audio/a.wav" := World.stale ]},
        [Mkdir "output/audio";
         Print (Generating "a.wav" "Hi");
         Stat "output/audio/a.wav" 52;
         Print (ClipDone "output/audio/a.wav" "0.0");
         JsonDump "output/audio/durations.json" [("a.wav", 1)];
         Print (DurationsSaved "output/audio/durations.json");
         Print (TotalNarration "0.0");
         Print AudioGenerationComplete]).
Proof. split; vm_compute; reflexivity. Qed.

(** C2 at a failing input.  The synthesizer yields chunks for the first
    entry and none for the second, whose file [b.wav] an earlier run left
    behind.  The run completes and writes [a.wav] only, yet the dumped
    dictionary has a key for "b.wav" too. *)
Lemma skipped_entry_gets_a_key :
  chunks_of (World.stub_pipeline World.skips_there) "there" = Return []
  /\ (run World.skips_there World.two_clips
          {[ "output/audio/b.wav" := World.stale ]}).1.1 = Return tt
  /\ writes (run World.skips_there World.two_clips
                 {[ "output/audio/b.wav" := World.stale ]}).2
     = [("output/audio/a.wav", [1; -2; 3], 24000)]
  /\ dumps (run World.skips_there World.two_clips
                {[ "output/audio/b.wav" := World.stale ]}).2
     = [("output/audio/durations.json", [("a.wav", 1); ("b.wav", 1)])].
Proof. repeat split; vm_compute; reflexivity. Qed.

(** *** The total is not the sum of the rounded values *)

(** One clip of 2380 bytes: 50 ms are recorded, which is 0.05 s and would
    print as 0.1, but the total printed is the unrounded 0.0495... s. *)
Example total_is_not_from_rounded_ms :
  dumps (run World.short_chunks [("a.wav", "Hi")] ∅).2
  = [("output/audio/durations.json", [("a.wav", 50)])]
  /\ In (Print (TotalNarration "0.0"))
        (run World.short_chunks [("a.wav", "Hi")] ∅).2
  /\ match Float.int_truediv 50 1000 with
     | Return seconds => Float.format_1f seconds
     | Raise _ => EmptyString
     end = "0.1".
Proof. repeat split; vm_compute; auto 20. Qed.

(** *** More runs *)

Lemma run_eta {A} (x : outcome A * filesystem * list event) :
  x = (x.1.1, x.1.2, x.2).
Proof. now destruct x as [[r fs] ev]. Qed.


Lemma same_name_run_completes :
  run World.two_clips_chunks World.same_name ∅
  = (Return tt,
     (run World.two_clips_chunks World.same_name ∅).1.2,
     (run World.two_clips_chunks World.same_name ∅).2).
Proof. vm_compute. reflexivity. Qed.

Lemma other_files_untouched_witness :
  (run World.two_clips_chunks World.two_clips {[ "notes.txt" := World.stale ]}).1.2
    !! "notes.txt"
  = ({[ "notes.txt" := World.stale ]} : filesystem) !! "notes.txt".
Proof.
  apply (other_files_untouched
           World.OUTPUT_DIR World.joinpath World.io_ok
           (World.stub World.two_clips_chunks) World.json_dumps
           World.two_clips {[ "notes.txt" := World.stale ]} _ _ _ "notes.txt"
           (run_eta _)).
  - compute_done.
  - compute_done.
Defined.

Lemma no_file_removed_witness :
  is_Some
    ((run World.skips_there World.two_clips
          {[ "output/audio/b.wav" := World.stale ]}).1.2
       !! "output/audio/b.wav").
Proof.
  apply (no_file_removed
           World.OUTPUT_DIR World.joinpath World.io_ok
           (World.stub World.skips_there) World.json_dumps
           World.two_clips {[ "output/audio/b.wav" := World.stale ]} _ _ _
           "output/audio/b.wav" (run_eta _)).
  compute_done.
Defined.


Lemma processed_in_table_order_witness :
  started (run World.skips_there World.two_clips ∅).2 `prefix_of` World.two_clips.
Proof.
  exact (proj1 (processed_in_table_order
                  World.OUTPUT_DIR World.joinpath World.io_ok
                  (World.stub World.skips_there) World.json_dumps
                  World.two_clips ∅ _ _ _ (run_eta _))).
Defined.

Lemma run_independent_of_old_files_witness :
  (run World.two_clips_chunks World.two_clips ∅).2
  = (run World.two_clips_chunks World.two_clips
         {[ "output/audio/a.wav" := World.stale ]}).2.
Proof.
  refine (proj1 (proj2 (run_independent_of_old_files
                          World.OUTPUT_DIR World.joinpath World.io_ok
                          (World.stub World.two_clips_chunks) World.json_dumps
                          World.two_clips ∅ {[ "output/audio/a.wav" := World.stale ]}
                          _ _ _ _ _ _ _ (run_eta _) (run_eta _)))).
  intros pipeline entry [= <-] Hin.
  apply list_elem_of_In in Hin. simpl in Hin.
  destruct Hin as [<-|[<-|[]]]; vm_compute; discriminate.
Defined.

Lemma every_entry_has_one_key_witness :
  exists durations,
    dumps (run World.two_clips_chunks World.two_clips ∅).2
    = [(World.joinpath World.OUTPUT_DIR "durations.json", durations)]
    /\ NoDup (dict_keys durations).
Proof.
  destruct (every_entry_has_one_key
              World.OUTPUT_DIR World.joinpath World.io_ok
              (World.stub World.two_clips_chunks) World.json_dumps
              World.two_clips ∅ _ _ two_clips_run_completes)
    as (durations & Hd & Hnd & _).
  exists durations. split; assumption.
Defined.

Lemma last_entry_of_a_name_is_recorded_witness :
  exists durations st_size ms,
    dumps (run World.two_clips_chunks World.same_name ∅).2
    = [(World.joinpath World.OUTPUT_DIR "durations.json", durations)]
    /\ stats (run World.two_clips_chunks World.same_name ∅).2 !! 1%nat
       = Some (World.joinpath World.OUTPUT_DIR "a.wav", st_size)
    /\ round_ms st_size = Return ms
    /\ dict_get "a.wav" durations = Some ms.
Proof.
  apply (last_entry_of_a_name_is_recorded
           World.OUTPUT_DIR World.joinpath World.io_ok
           (World.stub World.two_clips_chunks) World.json_dumps
           World.same_name ∅ _ _ 1%nat "a.wav" "there"
           same_name_run_completes eq_refl).
  compute_done.
Defined.

Lemma written_clip_is_measured_witness :
  stats (run World.two_clips_chunks World.two_clips ∅).2 !! 0%nat
  = Some (World.joinpath World.OUTPUT_DIR "a.wav",
          44 + 2 * Z.of_nat (length (List.concat [[1; -2]; [3]]))).
Proof.
  exact (written_clip_is_measured
           World.OUTPUT_DIR World.joinpath World.io_ok
           (World.stub World.two_clips_chunks) World.json_dumps
           World.two_clips ∅ _ _
           (World.stub_pipeline World.two_clips_chunks) 0%nat "a.wav" "Hi"
           [1; -2] [[3]]
           two_clips_run_completes eq_refl eq_refl eq_refl).
Defined.

Lemma main_dumps_the_sixteen_clips_witness :
  exists durations,
    dumps (run World.two_clips_chunks NARRATIONS ∅).2
    = [(World.joinpath World.OUTPUT_DIR "durations.json", durations)]
    /\ length (dict_keys durations) = 16%nat.
Proof.
  destruct (main_dumps_the_sixteen_clips
              World.OUTPUT_DIR World.joinpath World.io_ok
              (World.stub World.two_clips_chunks) World.json_dumps
              ∅ _ _ narrations_run_completes)
    as (durations & Hd & _ & Hkeys).
  exists durations. split; [exact Hd|]. now rewrite Hkeys.
Defined.

Lemma recorded_durations_not_negative_witness :
  exists durations,
    dumps (run World.two_clips_chunks World.two_clips ∅).2
    = [(World.joinpath World.OUTPUT_DIR "durations.json", durations)]
    /\ forall k ms, dict_get k durations = Some ms -> 0 <= ms.
Proof.
  exact (recorded_durations_not_negative
           World.OUTPUT_DIR World.joinpath World.io_ok
           (World.stub World.two_clips_chunks) World.json_dumps
           World.two_clips ∅ _ _ two_clips_run_completes).
Defined.
